(** * do_stitch: the finalization-and-cleanup orchestration of pyshepseg's
      AWS Batch example ([parallel_examples/awsbatch/do_stitch.py]).

    The script is a single [main] routine that talks to S3, GDAL, the
    pyshepseg tiling and statistics engines and the Python import system.
    It is embedded here as a program in a small monad that threads the
    chronological history of external calls (each recorded with the answer
    it received) and propagates Python exceptions.  The behaviour of the
    outside world is an arbitrary oracle that may depend on the whole
    history so far. *)

From Stdlib Require Import ZArith List String Ascii Bool Arith Lia.
From Stdlib Require Import DecimalString DecimalZ DecimalPos DecimalFacts.
From Equations Require Import Equations.
Import ListNotations.

Open Scope string_scope.
Open Scope list_scope.

(* ===================================================================== *)
(** ** Python primitives used by the script *)
(* ===================================================================== *)

Module Py.

(** [str(n)] for a Python [int]: decimal digits, with a leading minus sign
    for negative numbers.  This is what ['{}'.format(n)] inserts. *)
Definition str_of_int (z : Z) : string :=
  NilZero.string_of_int (Z.to_int z).

(** [s.split(sep)] for a one-character separator: every occurrence of the
    separator cuts, empty pieces are kept, the result is never empty. *)
Fixpoint split (sep : ascii) (s : string) : list string :=
  match s with
  | EmptyString => [EmptyString]
  | String c s' =>
      if Ascii.eqb c sep then EmptyString :: split sep s'
      else match split sep s' with
           | [] => [String c EmptyString]
           | piece :: rest => String c piece :: rest
           end
  end.

(** [sep.join(pieces)]. *)
Fixpoint join (sep : string) (pieces : list string) : string :=
  match pieces with
  | [] => EmptyString
  | [p] => p
  | p :: rest => p ++ sep ++ join sep rest
  end.

(** Number of occurrences of a character in a string. *)
Fixpoint count (c : ascii) (s : string) : nat :=
  match s with
  | EmptyString => 0
  | String a s' => (if Ascii.eqb a c then 1 else 0) + count c s'
  end.

(** [os.path.basename(p)] (posixpath): what follows the last slash. *)
Definition basename (p : string) : string :=
  last (split "/" p) EmptyString.

(** [s.endswith(c)] for a one-character suffix. *)
Fixpoint endswith (s : string) (c : ascii) : bool :=
  match s with
  | EmptyString => false
  | String a EmptyString => Ascii.eqb a c
  | String _ s' => endswith s' c
  end.

(** [s.startswith(c)] for a one-character prefix. *)
Definition startswith (s : string) (c : ascii) : bool :=
  match s with
  | EmptyString => false
  | String a _ => Ascii.eqb a c
  end.

(** [os.path.join(a, b)] (posixpath) for two components. *)
Definition path_join (a b : string) : string :=
  if startswith b "/" then b
  else if orb (String.eqb a EmptyString) (endswith a "/") then a ++ b
  else a ++ "/" ++ b.

(** A Python [dict] keeps its keys in insertion order; assigning to a key
    that is already present replaces the value in place. *)
Section Dict.
Context {K V : Type} (keq : K -> K -> bool).

Fixpoint setitem (d : list (K * V)) (k : K) (v : V) : list (K * V) :=
  match d with
  | [] => [(k, v)]
  | (k', v') :: d' =>
      if keq k' k then (k', v) :: d' else (k', v') :: setitem d' k v
  end.

Definition keys (d : list (K * V)) : list K := map fst d.
Definition values (d : list (K * V)) : list V := map snd d.

Fixpoint getitem (d : list (K * V)) (k : K) : option V :=
  match d with
  | [] => None
  | (k', v') :: d' => if keq k' k then Some v' else getitem d' k
  end.
End Dict.

End Py.

(** Equality on tile coordinates, the keys of the [tileFilenames] dict. *)
Definition coord_eqb (a b : Z * Z) : bool :=
  (fst a =? fst b)%Z && (snd a =? snd b)%Z.

(* ===================================================================== *)
(** ** Tile names (lines 91-95 and 110-112 of the script) *)
(* ===================================================================== *)

(** ['{}_{}_{}.{}'.format(tileprefix, col, row, 'tif')]: the S3 key of the
    tile at [(col, row)].  The same expression appears where the GDAL paths
    are built and where the keys to delete are built. *)
Definition tile_key (tileprefix : string) (col row : Z) : string :=
  tileprefix ++ "_" ++ Py.str_of_int col ++ "_" ++ Py.str_of_int row
             ++ "." ++ "tif".

(** ['/vsis3/' + bucket + '/' + key]: the GDAL path of that tile. *)
Definition tile_filename (bucket tileprefix : string) (col row : Z) : string :=
  "/vsis3/" ++ bucket ++ "/" ++ tile_key tileprefix col row.

(** The body of the loop of lines 92-95: one assignment to the dict. *)
Definition set_tile (bucket tileprefix : string)
    (tileFilenames : list ((Z * Z) * string)) (colRow : Z * Z)
  : list ((Z * Z) * string) :=
  let '(col, row) := colRow in
  Py.setitem coord_eqb tileFilenames (col, row)
             (tile_filename bucket tileprefix col row).

(** The loop of lines 91-95: fills the [tileFilenames] dict. *)
Definition build_tileFilenames (bucket tileprefix : string)
    (colRowList : list (Z * Z)) : list ((Z * Z) * string) :=
  fold_left (set_tile bucket tileprefix) colRowList [].

(** The loop of lines 109-112: the keys to delete, one per dict entry, in the
    dict's iteration order. *)
Definition tile_objs (tileprefix : string)
    (tileFilenames : list ((Z * Z) * string)) : list string :=
  map (fun '(col, row) => tile_key tileprefix col row) (Py.keys tileFilenames).


(* ===================================================================== *)
(** ** Data exchanged with the outside world *)
(* ===================================================================== *)

(** Contents of a blob held in an in-memory [io.BytesIO] buffer. *)
Definition bytes := list Byte.byte.

(** Objects owned by a collaborator (GDAL datasets, bands and attribute
    tables, imported modules, functions, the opaque [tileInfo]) are only
    passed around by the script; they are identified by a number. *)
Definition Handle := nat.

(** The [argparse] namespace returned by [getCmdargs]; an option that was not
    given on the command line is [None]. *)
Record Cmdargs := {
  bucket : string;
  infile : string;
  outfile : string;
  tileprefix : string;
  pickle : string;
  overlapsize : Z;
  stats : option string;
  spatialstats : option string;
  nogdalstats : bool;
  noremove : bool;
  statsreadworkers : Z;
  readworkerstimeouts : option Z
}.

(** What [pickle.load] gives back: the dict written by the preparation
    stage, of which the script reads two entries. *)
Record PickleData := {
  colRowList : list (Z * Z);
  tileInfo : Handle
}.

(** Values produced by [json.load]; a float is carried as its literal. *)
Unset Elimination Schemes.
Inductive json :=
| JNull
| JBool (b : bool)
| JNum (n : Z)
| JFloat (literal : string)
| JStr (s : string)
| JArr (items : list json)
| JObj (fields : list (string * json)).
Set Elimination Schemes.

(** The keyword arguments given to [applier.ConcurrencyStyle]; a timeout that
    is not passed is [None] and is then left to the engine's default. *)
Record ConcurrencyStyle := {
  numReadWorkers : Z;
  readBufferPopTimeout : option Z;
  readBufferInsertTimeout : option Z;
  computeBufferInsertTimeout : option Z;
  computeBufferPopTimeout : option Z
}.

(** Python exceptions.  [OtherError] stands for whatever a collaborator
    raises (botocore errors, GDAL's [RuntimeError], [ModuleNotFoundError]). *)
Inductive exn :=
| ValueError (msg : string)
| TypeError (msg : string)
| AttributeError (msg : string)
| UnboundLocalError (msg : string)
| OtherError (name msg : string).

Inductive result (A : Type) :=
| Ok (a : A)
| Raise (e : exn).
Arguments Ok {A} a.
Arguments Raise {A} e.

(** One external call together with the answer it received. *)
Inductive Event :=
| Ev_boto3_client (service : string) (r : result unit)
| Ev_download_fileobj (Bucket Key : string) (r : result bytes)
| Ev_pickle_load (data : bytes) (r : result PickleData)
| Ev_gdal_Open (path : string) (r : result Handle)
| Ev_mkdtemp (r : result string)
| Ev_finalize (inDs : Handle) (outFile : string)
    (tileFilenames : list ((Z * Z) * string)) (tileInfo : Handle)
    (overlapSize : Z) (tempDir : string) (writeHistogram : bool)
    (r : result (Z * bool * Handle))
| Ev_delete_objects (Bucket : string) (Keys : list string) (r : result unit)
| Ev_GetRasterBand (ds : Handle) (n : Z) (r : result Handle)
| Ev_GetDefaultRAT (band : Handle) (r : result Handle)
| Ev_GetColOfUsage_PixelCount (rat : Handle) (r : result Z)
| Ev_ReadAsArray (rat : Handle) (col : Z) (r : result (list Z))
| Ev_estimateStatsFromHisto (band : Handle) (hist : list Z) (r : result unit)
| Ev_writeRandomColourTable (band : Handle) (numEntries : Z) (r : result unit)
| Ev_addOverviews (ds : Handle) (r : result unit)
| Ev_del_localDs (ds : Handle)
| Ev_json_load (data : bytes) (r : result json)
| Ev_print (items : list json) (r : result unit)
| Ev_calcPerSegmentStatsRIOS (img bandnum : json) (segfile : string)
    (selection : json) (concurrencyStyle : ConcurrencyStyle) (r : result unit)
| Ev_import_module (name : string) (r : result Handle)
| Ev_hasattr (module : Handle) (name : string) (r : result bool)
| Ev_getattr (module : Handle) (name : string) (r : result Handle)
| Ev_calcPerSegmentSpatialStatsRIOS (img bandnum : json) (segfile : string)
    (colInfo : json) (userFunc : Handle) (param : json)
    (concurrencyStyle : ConcurrencyStyle) (r : result unit)
| Ev_upload_file (Filename Bucket Key : string) (r : result unit)
| Ev_rmtree (path : string) (r : result unit)
| Ev_getrusage_maxrss (r : result Z).

Definition History := list Event.

(** The outside world: the answer to each call, as a function of everything
    that happened before and of the call's arguments. *)
Record World := {
  w_boto3_client : History -> string -> result unit;
  w_download_fileobj : History -> string -> string -> result bytes;
  w_pickle_load : History -> bytes -> result PickleData;
  w_gdal_Open : History -> string -> result Handle;
  w_mkdtemp : History -> result string;
  w_finalize : History -> Handle -> string -> list ((Z * Z) * string) ->
               Handle -> Z -> string -> bool -> result (Z * bool * Handle);
  w_delete_objects : History -> string -> list string -> result unit;
  w_GetRasterBand : History -> Handle -> Z -> result Handle;
  w_GetDefaultRAT : History -> Handle -> result Handle;
  w_GetColOfUsage_PixelCount : History -> Handle -> result Z;
  w_ReadAsArray : History -> Handle -> Z -> result (list Z);
  w_estimateStatsFromHisto : History -> Handle -> list Z -> result unit;
  w_writeRandomColourTable : History -> Handle -> Z -> result unit;
  w_addOverviews : History -> Handle -> result unit;
  w_json_load : History -> bytes -> result json;
  w_print : History -> list json -> result unit;
  w_calcPerSegmentStatsRIOS :
    History -> json -> json -> string -> json -> ConcurrencyStyle -> result unit;
  w_import_module : History -> string -> result Handle;
  w_hasattr : History -> Handle -> string -> result bool;
  w_getattr : History -> Handle -> string -> result Handle;
  w_calcPerSegmentSpatialStatsRIOS :
    History -> json -> json -> string -> json -> Handle -> json ->
    ConcurrencyStyle -> result unit;
  w_upload_file : History -> string -> string -> string -> result unit;
  w_rmtree : History -> string -> result unit;
  w_getrusage_maxrss : History -> result Z
}.

(* ===================================================================== *)
(** ** The monad: history of calls plus exceptions *)
(* ===================================================================== *)

Definition M (A : Type) : Type := History -> History * result A.

Definition ret {A} (a : A) : M A := fun h => (h, Ok a).

Definition raise {A} (e : exn) : M A := fun h => (h, Raise e).

Definition bind {A B} (m : M A) (f : A -> M B) : M B :=
  fun h =>
    match m h with
    | (h', Ok a) => f a h'
    | (h', Raise e) => (h', Raise e)
    end.

(** An external call: ask the world, record call and answer, hand the answer
    (value or exception) back. *)
Definition call {A} (oracle : History -> result A) (ev : result A -> Event)
  : M A :=
  fun h => let r := oracle h in (h ++ [ev r], r).

(** An external action that cannot raise. *)
Definition emit (e : Event) : M unit := fun h => (h ++ [e], Ok tt).

(** The outcome of a pure Python operation that may raise. *)
Definition lift {A} (r : result A) : M A := fun h => (h, r).

Declare Scope py_scope.
Delimit Scope py_scope with py.
Notation "x <- m ;; k" := (bind m (fun x => k))
  (at level 61, m at next level, right associativity) : py_scope.
Notation "' pat <- m ;; k" := (bind m (fun x => match x with pat => k end))
  (at level 61, pat pattern, m at next level, right associativity) : py_scope.
Notation "m ;; k" := (bind m (fun _ => k))
  (at level 61, right associativity) : py_scope.
Open Scope py_scope.

(** [for x in xs: body]. *)
Fixpoint for_each {A} (xs : list A) (body : A -> M unit) : M unit :=
  match xs with
  | [] => ret tt
  | x :: xs' => body x ;; for_each xs' body
  end.

(** Events a run appends to an empty history, and its outcome. *)
Definition trace_of {A} (m : M A) : History := fst (m []).
Definition outcome_of {A} (m : M A) : result A := snd (m []).

(* ===================================================================== *)
(** ** Pure Python steps that may raise *)
(* ===================================================================== *)

(** [iter(v)] on a JSON value: lists give their items, strings their
    characters, dicts their keys; anything else is not iterable. *)
Definition py_iter (v : json) : result (list json) :=
  match v with
  | JArr items => Ok items
  | JStr s => Ok (map (fun c => JStr (String c EmptyString))
                      (list_ascii_of_string s))
  | JObj fields => Ok (map (fun kv => JStr (fst kv)) fields)
  | _ => Raise (TypeError "object is not iterable")
  end.

Definition not_enough_values : exn :=
  ValueError "not enough values to unpack".
Definition too_many_values : exn :=
  ValueError "too many values to unpack".

(** [a, b = xs] *)
Definition unpack2 {A} (xs : list A) : result (A * A) :=
  match xs with
  | [a; b] => Ok (a, b)
  | [] | [_] => Raise not_enough_values
  | _ => Raise too_many_values
  end.

(** [for a, b, c in ...]: unpacking one item of the statistics document. *)
Definition unpack3 (v : json) : result (json * json * json) :=
  match py_iter v with
  | Raise e => Raise e
  | Ok [a; b; c] => Ok (a, b, c)
  | Ok ([] | [_] | [_; _]) => Raise not_enough_values
  | Ok _ => Raise too_many_values
  end.

(** [for a, b, c, d, e in ...]: one item of the spatial statistics document. *)
Definition unpack5 (v : json)
  : result (json * json * json * json * json) :=
  match py_iter v with
  | Raise e => Raise e
  | Ok [a; b; c; d; e] => Ok (a, b, c, d, e)
  | Ok ([] | [_] | [_; _] | [_; _; _] | [_; _; _; _]) =>
      Raise not_enough_values
  | Ok _ => Raise too_many_values
  end.

(** [v.split('.')]: only strings have the method. *)
Definition json_split (sep : ascii) (v : json) : result (list string) :=
  match v with
  | JStr s => Ok (Py.split sep s)
  | _ => Raise (AttributeError "object has no attribute 'split'")
  end.

(** Reading a local variable that may not have been assigned. *)
Definition read_local {A} (name : string) (v : option A) : result A :=
  match v with
  | Some a => Ok a
  | None => Raise (UnboundLocalError name)
  end.

(** The message of line 170. *)
Definition msg_fully_qualified : string :=
  "'userFunc' must be a fully qualified function " ++
  "name. ie. modulename.function_name. " ++
  "eg. pyshepseg.tilingstats.userFuncVariogram".

(** The message of line 178. *)
Definition msg_cannot_find (funcName moduleName : string) : string :=
  "Cannot find function " ++ funcName ++ " " ++ "in module " ++ moduleName.

(** The S3 batch-delete limit worked around at lines 114-117. *)
Definition batch_limit : nat := 1000.

(* ===================================================================== *)
(** ** The script *)
(* ===================================================================== *)

Section Script.
Context (W : World) (cmdargs : Cmdargs).

(** *** External calls *)

Definition boto3_client (service : string) : M unit :=
  call (fun h => w_boto3_client W h service) (Ev_boto3_client service).

Definition s3_download_fileobj (Bucket Key : string) : M bytes :=
  call (fun h => w_download_fileobj W h Bucket Key)
       (Ev_download_fileobj Bucket Key).

Definition pickle_load (data : bytes) : M PickleData :=
  call (fun h => w_pickle_load W h data) (Ev_pickle_load data).

Definition gdal_Open (path : string) : M Handle :=
  call (fun h => w_gdal_Open W h path) (Ev_gdal_Open path).

Definition tempfile_mkdtemp : M string :=
  call (fun h => w_mkdtemp W h) Ev_mkdtemp.

Definition doTiledShepherdSegmentation_finalize (inDs : Handle)
    (outFile : string) (tileFilenames : list ((Z * Z) * string))
    (tileInf : Handle) (overlapSize : Z) (tempDir : string)
    (writeHistogram : bool) : M (Z * bool * Handle) :=
  call (fun h => w_finalize W h inDs outFile tileFilenames tileInf
                            overlapSize tempDir writeHistogram)
       (Ev_finalize inDs outFile tileFilenames tileInf overlapSize tempDir
                    writeHistogram).

Definition s3_delete_objects (Bucket : string) (Keys : list string) : M unit :=
  call (fun h => w_delete_objects W h Bucket Keys)
       (Ev_delete_objects Bucket Keys).

Definition GetRasterBand (ds : Handle) (n : Z) : M Handle :=
  call (fun h => w_GetRasterBand W h ds n) (Ev_GetRasterBand ds n).

Definition GetDefaultRAT (band : Handle) : M Handle :=
  call (fun h => w_GetDefaultRAT W h band) (Ev_GetDefaultRAT band).

Definition GetColOfUsage_PixelCount (rat : Handle) : M Z :=
  call (fun h => w_GetColOfUsage_PixelCount W h rat)
       (Ev_GetColOfUsage_PixelCount rat).

Definition ReadAsArray (rat : Handle) (col : Z) : M (list Z) :=
  call (fun h => w_ReadAsArray W h rat col) (Ev_ReadAsArray rat col).

Definition estimateStatsFromHisto (band : Handle) (hist : list Z) : M unit :=
  call (fun h => w_estimateStatsFromHisto W h band hist)
       (Ev_estimateStatsFromHisto band hist).

Definition writeRandomColourTable (band : Handle) (numEntries : Z) : M unit :=
  call (fun h => w_writeRandomColourTable W h band numEntries)
       (Ev_writeRandomColourTable band numEntries).

Definition addOverviews (ds : Handle) : M unit :=
  call (fun h => w_addOverviews W h ds) (Ev_addOverviews ds).

Definition json_load (data : bytes) : M json :=
  call (fun h => w_json_load W h data) (Ev_json_load data).

Definition print (items : list json) : M unit :=
  call (fun h => w_print W h items) (Ev_print items).

Definition calcPerSegmentStatsRIOS (img bandnum : json) (segfile : string)
    (selection : json) (cs : ConcurrencyStyle) : M unit :=
  call (fun h => w_calcPerSegmentStatsRIOS W h img bandnum segfile selection cs)
       (Ev_calcPerSegmentStatsRIOS img bandnum segfile selection cs).

Definition import_module (name : string) : M Handle :=
  call (fun h => w_import_module W h name) (Ev_import_module name).

Definition hasattr (module : Handle) (name : string) : M bool :=
  call (fun h => w_hasattr W h module name) (Ev_hasattr module name).

Definition getattr (module : Handle) (name : string) : M Handle :=
  call (fun h => w_getattr W h module name) (Ev_getattr module name).

Definition calcPerSegmentSpatialStatsRIOS (img bandnum : json)
    (segfile : string) (colInfo : json) (userFunc : Handle) (param : json)
    (cs : ConcurrencyStyle) : M unit :=
  call (fun h => w_calcPerSegmentSpatialStatsRIOS W h img bandnum segfile
                                                  colInfo userFunc param cs)
       (Ev_calcPerSegmentSpatialStatsRIOS img bandnum segfile colInfo
                                          userFunc param cs).

Definition s3_upload_file (Filename Bucket Key : string) : M unit :=
  call (fun h => w_upload_file W h Filename Bucket Key)
       (Ev_upload_file Filename Bucket Key).

Definition shutil_rmtree (path : string) : M unit :=
  call (fun h => w_rmtree W h path) (Ev_rmtree path).

Definition getrusage_maxrss : M Z :=
  call (fun h => w_getrusage_maxrss W h) Ev_getrusage_maxrss.

(** *** Lines 114-117: delete at most 1000 keys per call.

    [while len(objs) > 0: s3.delete_objects(..., objs[0:1000]);
     del objs[0:1000]] *)
#[local] Opaque batch_limit.
Equations? delete_in_batches (objs : list string) : M unit
  by wf (List.length objs) lt :=
  delete_in_batches [] := ret tt;
  delete_in_batches (o :: objs') :=
    s3_delete_objects (bucket cmdargs) (firstn batch_limit (o :: objs')) ;;
    delete_in_batches (skipn batch_limit (o :: objs')).
Proof.
  rewrite length_skipn. cbn [List.length].
  assert (0 < batch_limit) by (with_strategy transparent [batch_limit] (unfold batch_limit; lia)).
  lia.
Qed.
#[local] Transparent batch_limit.

(** *** Lines 108-117: tile cleanup *)
Definition tile_cleanup (tileFilenames : list ((Z * Z) * string)) : M unit :=
  if negb (noremove cmdargs) then
    delete_in_batches (tile_objs (tileprefix cmdargs) tileFilenames)
  else ret tt.

(** *** Lines 119-129: GDAL statistics, colour table and overviews *)
Definition default_stats (maxSegId : Z) (localDs : Handle) : M unit :=
  if negb (nogdalstats cmdargs) then
    band <- GetRasterBand localDs 1 ;;
    rat <- GetDefaultRAT band ;;
    histIdx <- GetColOfUsage_PixelCount rat ;;
    hist <- ReadAsArray rat histIdx ;;
    estimateStatsFromHisto band hist ;;
    writeRandomColourTable band (maxSegId + 1) ;;
    addOverviews localDs
  else ret tt.

(** *** Lines 134-143: the RIOS concurrency style.
    Building the object is taken to be a plain record construction. *)
Definition make_concurrencyStyle : ConcurrencyStyle :=
  match readworkerstimeouts cmdargs with
  | Some t =>
      {| numReadWorkers := statsreadworkers cmdargs;
         readBufferPopTimeout := Some t;
         readBufferInsertTimeout := Some t;
         computeBufferInsertTimeout := Some t;
         computeBufferPopTimeout := Some t |}
  | None =>
      {| numReadWorkers := statsreadworkers cmdargs;
         readBufferPopTimeout := None;
         readBufferInsertTimeout := None;
         computeBufferInsertTimeout := None;
         computeBufferPopTimeout := None |}
  end.

(** *** Lines 146-157: per-segment statistics.
    Returns the local variable [statsKey] ([None] while unassigned). *)
Definition aggregate_stats (localOutfile : string)
    (concurrencyStyle : ConcurrencyStyle) : M (option string) :=
  match stats cmdargs with
  | Some locator =>
      '(bucket, statsKey) <- lift (unpack2 (Py.split ":" locator)) ;;
      fileobj <- s3_download_fileobj bucket statsKey ;;
      dataForStats <- json_load fileobj ;;
      items <- lift (py_iter dataForStats) ;;
      for_each items (fun item =>
        '(img, bandnum, selection) <- lift (unpack3 item) ;;
        print [img; bandnum; selection] ;;
        calcPerSegmentStatsRIOS img bandnum localOutfile selection
                                concurrencyStyle) ;;
      ret (Some statsKey)
  | None => ret None
  end.

(** *** Lines 168-181: turning the name of a user function into the
    function itself *)
Definition resolve_userFunc (userFuncName : json) : M Handle :=
  userFuncArr <- lift (json_split "." userFuncName) ;;
  if (List.length userFuncArr <? 2)%nat then
    raise (ValueError msg_fully_qualified)
  else
    let moduleName := Py.join "." (removelast userFuncArr) in
    let funcName := last userFuncArr EmptyString in
    module <- import_module moduleName ;;
    found <- hasattr module funcName ;;
    if negb found then
      raise (ValueError (msg_cannot_find funcName moduleName))
    else
      getattr module funcName.

(** *** Lines 159-184: per-segment spatial statistics.
    Returns the local variable [spatialstatsKey]. *)
Definition spatial_stats (localOutfile : string)
    (concurrencyStyle : ConcurrencyStyle) : M (option string) :=
  match spatialstats cmdargs with
  | Some locator =>
      '(bucket, spatialstatsKey) <- lift (unpack2 (Py.split ":" locator)) ;;
      fileobj <- s3_download_fileobj bucket spatialstatsKey ;;
      dataForStats <- json_load fileobj ;;
      items <- lift (py_iter dataForStats) ;;
      for_each items (fun item =>
        '(img, bandnum, colInfo, userFuncName, param) <- lift (unpack5 item) ;;
        print [img; bandnum; colInfo; userFuncName; param] ;;
        userFunc <- resolve_userFunc userFuncName ;;
        calcPerSegmentSpatialStatsRIOS img bandnum localOutfile colInfo
                                       userFunc param concurrencyStyle) ;;
      ret (Some spatialstatsKey)
  | None => ret None
  end.

(** *** Lines 190-197: removing the pickle and the statistics documents *)
Definition final_cleanup (statsKey spatialstatsKey : option string) : M unit :=
  if negb (noremove cmdargs) then
    let objs := [pickle cmdargs] in
    objs <- match stats cmdargs with
            | Some _ =>
                k <- lift (read_local "statsKey" statsKey) ;;
                ret (objs ++ [k])%list
            | None => ret objs
            end ;;
    objs <- match spatialstats cmdargs with
            | Some _ =>
                k <- lift (read_local "spatialstatsKey" spatialstatsKey) ;;
                ret (objs ++ [k])%list
            | None => ret objs
            end ;;
    s3_delete_objects (bucket cmdargs) objs
  else ret tt.

(** *** Lines 69-202: [main].
    The command line is already parsed ([cmdargs]).  [del localDs] drops the
    only reference the script holds on the dataset returned by the
    finalization, which closes it (line 131 of the script says so); it is
    recorded as the event [Ev_del_localDs].  The in-memory buffers
    ([io.BytesIO], [seek]) are passed as their contents. *)
Definition main : M unit :=
  boto3_client "s3" ;;
  fileobj <- s3_download_fileobj (bucket cmdargs) (pickle cmdargs) ;;
  dataFromPickle <- pickle_load fileobj ;;
  let inPath := ("/vsis3/" ++ bucket cmdargs ++ "/" ++ infile cmdargs)%string in
  inDs <- gdal_Open inPath ;;
  tempDir <- tempfile_mkdtemp ;;
  let tileFilenames :=
    build_tileFilenames (bucket cmdargs) (tileprefix cmdargs)
                        (colRowList dataFromPickle) in
  let localOutfile :=
    Py.path_join tempDir (Py.basename (outfile cmdargs)) in
  '(maxSegId, hasEmptySegments, localDs) <-
    doTiledShepherdSegmentation_finalize inDs localOutfile tileFilenames
      (tileInfo dataFromPickle) (overlapsize cmdargs) tempDir true ;;
  tile_cleanup tileFilenames ;;
  default_stats maxSegId localDs ;;
  emit (Ev_del_localDs localDs) ;;
  let concurrencyStyle := make_concurrencyStyle in
  statsKey <- aggregate_stats localOutfile concurrencyStyle ;;
  spatialstatsKey <- spatial_stats localOutfile concurrencyStyle ;;
  s3_upload_file localOutfile (bucket cmdargs) (outfile cmdargs) ;;
  final_cleanup statsKey spatialstatsKey ;;
  shutil_rmtree tempDir ;;
  maxMem <- getrusage_maxrss ;;
  print [JStr "Max Mem Usage"; JNum maxMem].

End Script.

(* ===================================================================== *)
(** ** Reasoning about runs *)
(* ===================================================================== *)

(** Weakest precondition of a program: [Q] must hold of value and history
    when it returns, [E] of exception and history when it raises. *)
Definition wp {A} (m : M A) (Q : A -> History -> Prop)
    (E : exn -> History -> Prop) (h : History) : Prop :=
  match m h with
  | (h', Ok a) => Q a h'
  | (h', Raise e) => E e h'
  end.

(** A property of histories that survives one more [P]-event. *)
Definition stable (I : History -> Prop) (P : Event -> Prop) : Prop :=
  forall h e, I h -> P e -> I (h ++ [e]).

(** A program all of whose calls are [P]-events, however it ends. *)
Definition emits_only {A} (P : Event -> Prop) (m : M A) : Prop :=
  forall (I : History -> Prop) h,
    stable I P -> I h -> wp m (fun _ => I) (fun _ => I) h.

(* ===================================================================== *)
(** ** Observations on histories *)
(* ===================================================================== *)

Definition key_of_coord (prefix : string) (cr : Z * Z) : string :=
  tile_key prefix (fst cr) (snd cr).

Definition is_ok {A} (r : result A) : bool :=
  match r with Ok _ => true | Raise _ => false end.

Definition dec_bool {P : Prop} (d : {P} + {~ P}) : bool :=
  if d then true else false.

Definition is_delete (e : Event) : bool :=
  match e with
  | Ev_delete_objects _ _ _ => true
  | _ => false
  end.

Definition is_upload_ok (e : Event) : bool :=
  match e with
  | Ev_upload_file _ _ _ (Ok _) => true
  | _ => false
  end.

Definition is_stats_call (e : Event) : bool :=
  match e with
  | Ev_calcPerSegmentStatsRIOS _ _ _ _ _ _
  | Ev_calcPerSegmentSpatialStatsRIOS _ _ _ _ _ _ _ _ => true
  | _ => false
  end.

(** The key lists of the delete calls of a history, in order. *)
Definition delete_batches (t : History) : list (list string) :=
  flat_map (fun e => match e with
                     | Ev_delete_objects _ Keys _ => [Keys]
                     | _ => []
                     end) t.

(** A successful delete call on the main bucket. *)
Definition ok_delete (a : Cmdargs) (keys : list string) : Event :=
  Ev_delete_objects (bucket a) keys (Ok tt).

(** [ceil(a / b)] on natural numbers. *)
Definition ceil_div (a b : nat) : nat := (a + b - 1) / b.

(** Sizes of the batches for [K] keys: full batches, then the remainder. *)
Definition batch_sizes (K : nat) : list nat :=
  repeat batch_limit (K / batch_limit) ++
  (if (K mod batch_limit =? 0)%nat then [] else [K mod batch_limit]).

(** The handle a finalization call handed back, if it succeeded. *)
Definition finalize_returned (e : Event) : option Handle :=
  match e with
  | Ev_finalize _ _ _ _ _ _ _ (Ok (_, _, ds)) => Some ds
  | _ => None
  end.

(** What a successful finalization call returned: maximum segment id and
    dataset handle. *)
Definition finalize_result (e : Event) : option (Z * Handle) :=
  match e with
  | Ev_finalize _ _ _ _ _ _ _ (Ok (m, _, ds)) => Some (m, ds)
  | _ => None
  end.

(** Handles on the output raster held by the script: one more after a
    successful finalization, one less after [del localDs]. *)
Definition handle_effect (held : nat) (e : Event) : nat :=
  match e with
  | Ev_finalize _ _ _ _ _ _ _ (Ok _) => S held
  | Ev_del_localDs _ => Nat.pred held
  | _ => held
  end.

Definition held_handles (t : History) : nat := fold_left handle_effect t 0.

(** Handles on the output raster that a collaborator opens for the duration
    of a call: the finalization engine writes the file, the statistics
    engine reopens it. *)
Definition opened_during (e : Event) : nat :=
  match e with
  | Ev_finalize _ _ _ _ _ _ _ _
  | Ev_calcPerSegmentStatsRIOS _ _ _ _ _ _
  | Ev_calcPerSegmentSpatialStatsRIOS _ _ _ _ _ _ _ _ => 1
  | _ => 0
  end.

(** The key named by a ["bucket:key"] locator. *)
Definition locator_key (locator : string) : string :=
  last (Py.split ":" locator) EmptyString.

(** The bucket named by a ["bucket:key"] locator. *)
Definition locator_bucket (locator : string) : string :=
  hd EmptyString (Py.split ":" locator).

Definition optional_key (locator : option string) : list string :=
  match locator with
  | Some l => [locator_key l]
  | None => []
  end.

(** The keys of the documents a run no longer needs once it has published. *)
Definition final_keys (a : Cmdargs) : list string :=
  [pickle a] ++ optional_key (stats a) ++ optional_key (spatialstats a).

(** Whether an event is one of the seven calls of the default statistics
    stage, and if so whether it returned normally. *)
Definition gdalstats_result (e : Event) : option bool :=
  match e with
  | Ev_GetRasterBand _ _ r => Some (is_ok r)
  | Ev_GetDefaultRAT _ r => Some (is_ok r)
  | Ev_GetColOfUsage_PixelCount _ r => Some (is_ok r)
  | Ev_ReadAsArray _ _ r => Some (is_ok r)
  | Ev_estimateStatsFromHisto _ _ r => Some (is_ok r)
  | Ev_writeRandomColourTable _ _ r => Some (is_ok r)
  | Ev_addOverviews _ r => Some (is_ok r)
  | _ => None
  end.

(** The calls of lines 120-129, in order, on dataset [ds] with maximum
    segment id [m], when all of them succeed. *)
Definition default_stats_calls (m : Z) (ds band rat : Handle) (histIdx : Z)
    (hist : list Z) : History :=
  [ Ev_GetRasterBand ds 1 (Ok band);
    Ev_GetDefaultRAT band (Ok rat);
    Ev_GetColOfUsage_PixelCount rat (Ok histIdx);
    Ev_ReadAsArray rat histIdx (Ok hist);
    Ev_estimateStatsFromHisto band hist (Ok tt);
    Ev_writeRandomColourTable band (m + 1) (Ok tt);
    Ev_addOverviews ds (Ok tt) ].

(** Whether the calls made while the handle was held are all the default
    statistics stage has to make. *)
Definition default_stats_done (a : Cmdargs) (m : Z) (ds : Handle)
    (g : History) : bool :=
  if nogdalstats a then
    match g with [] => true | _ => false end
  else
    match g with
    | [ Ev_GetRasterBand ds0 n (Ok band);
        Ev_GetDefaultRAT band1 (Ok rat);
        Ev_GetColOfUsage_PixelCount rat1 (Ok histIdx);
        Ev_ReadAsArray rat2 histIdx1 (Ok hist);
        Ev_estimateStatsFromHisto band2 hist1 (Ok _);
        Ev_writeRandomColourTable band3 n1 (Ok _);
        Ev_addOverviews ds1 (Ok _) ] =>
        (ds0 =? ds)%nat && (n =? 1)%Z && (band1 =? band)%nat &&
        (rat1 =? rat)%nat && (rat2 =? rat)%nat && (histIdx1 =? histIdx)%Z &&
        dec_bool (list_eq_dec Z.eq_dec hist1 hist) &&
        (band2 =? band)%nat && (band3 =? band)%nat && (n1 =? m + 1)%Z &&
        (ds1 =? ds)%nat
    | _ => false
    end.

(** *** Facts about single events *)

(** What can be said of each single call of a run, whatever the world does. *)
Definition main_event (a : Cmdargs) (e : Event) : Prop :=
  match e with
  | Ev_delete_objects Bucket _ _ => Bucket = bucket a /\ noremove a = false
  | Ev_GetRasterBand _ _ _ | Ev_GetDefaultRAT _ _
  | Ev_GetColOfUsage_PixelCount _ _ | Ev_ReadAsArray _ _ _
  | Ev_estimateStatsFromHisto _ _ _ | Ev_writeRandomColourTable _ _ _
  | Ev_addOverviews _ _ => nogdalstats a = false
  | Ev_calcPerSegmentStatsRIOS _ _ _ _ cs _ =>
      cs = make_concurrencyStyle a /\ stats a <> None
  | Ev_calcPerSegmentSpatialStatsRIOS _ _ _ _ _ _ cs _ =>
      cs = make_concurrencyStyle a /\ spatialstats a <> None
  | Ev_import_module _ _ | Ev_hasattr _ _ _ | Ev_getattr _ _ _ =>
      spatialstats a <> None
  | Ev_json_load _ _ => stats a <> None \/ spatialstats a <> None
  | Ev_upload_file _ Bucket Key _ => Bucket = bucket a /\ Key = outfile a
  | Ev_download_fileobj Bucket Key _ =>
      (Bucket = bucket a /\ Key = pickle a) \/
      (exists locator,
         (stats a = Some locator \/ spatialstats a = Some locator) /\
         Py.count ":" locator = 1 /\
         Bucket = locator_bucket locator /\ Key = locator_key locator)
  | Ev_finalize _ _ _ _ overlapSize _ writeHistogram _ =>
      overlapSize = overlapsize a /\ writeHistogram = true
  | _ => True
  end.

Definition is_delete_on (b : string) (e : Event) : Prop :=
  match e with Ev_delete_objects b' _ _ => b' = b | _ => False end.

Definition is_gdalstats (e : Event) : Prop :=
  match e with
  | Ev_GetRasterBand _ _ _ | Ev_GetDefaultRAT _ _
  | Ev_GetColOfUsage_PixelCount _ _ | Ev_ReadAsArray _ _ _
  | Ev_estimateStatsFromHisto _ _ _ | Ev_writeRandomColourTable _ _ _
  | Ev_addOverviews _ _ => True
  | _ => False
  end.

Definition is_early (e : Event) : Prop :=
  match e with
  | Ev_boto3_client _ _ | Ev_download_fileobj _ _ _ => True
  | _ => False
  end.

Definition is_opening (e : Event) : Prop :=
  match e with
  | Ev_gdal_Open _ _ | Ev_mkdtemp _ => True
  | _ => False
  end.

Definition is_stats_stage (e : Event) : Prop :=
  match e with
  | Ev_download_fileobj _ _ _ | Ev_json_load _ _ | Ev_print _ _
  | Ev_calcPerSegmentStatsRIOS _ _ _ _ _ _
  | Ev_import_module _ _ | Ev_hasattr _ _ _ | Ev_getattr _ _ _
  | Ev_calcPerSegmentSpatialStatsRIOS _ _ _ _ _ _ _ _ => True
  | _ => False
  end.

Definition is_closing (e : Event) : Prop :=
  match e with
  | Ev_rmtree _ _ | Ev_getrusage_maxrss _ | Ev_print _ _ => True
  | _ => False
  end.

(** Calls made before any statistics document is looked at. *)
Definition before_statistics (a : Cmdargs) (e : Event) : Prop :=
  match e with
  | Ev_boto3_client _ _ | Ev_pickle_load _ _ | Ev_gdal_Open _ _
  | Ev_mkdtemp _ | Ev_finalize _ _ _ _ _ _ _ _ | Ev_delete_objects _ _ _
  | Ev_GetRasterBand _ _ _ | Ev_GetDefaultRAT _ _
  | Ev_GetColOfUsage_PixelCount _ _ | Ev_ReadAsArray _ _ _
  | Ev_estimateStatsFromHisto _ _ _ | Ev_writeRandomColourTable _ _ _
  | Ev_addOverviews _ _ | Ev_del_localDs _ => True
  | Ev_download_fileobj Bucket Key _ => Bucket = bucket a /\ Key = pickle a
  | _ => False
  end.

(** Calls made for the aggregate statistics document. *)
Definition aggregate_event (a : Cmdargs) (e : Event) : Prop :=
  match e with
  | Ev_download_fileobj Bucket Key _ =>
      exists l, stats a = Some l /\
                Bucket = locator_bucket l /\ Key = locator_key l
  | Ev_json_load _ _ | Ev_print _ _
  | Ev_calcPerSegmentStatsRIOS _ _ _ _ _ _ => True
  | _ => False
  end.

Definition up_to_aggregate (a : Cmdargs) (e : Event) : Prop :=
  before_statistics a e \/ aggregate_event a e.

(* ===================================================================== *)
(** ** The protocol of a run *)
(* ===================================================================== *)

(** Where a run stands, as far as the calls it has made can tell:
    - [Early]: nothing unpickled yet;
    - [Loaded]: the preparation state is in memory;
    - [Holding]: finalization succeeded, the script holds the dataset
      handle; [objs] are the tile keys still to delete and [g] the calls of
      the default statistics stage made so far;
    - [Released]: the handle was dropped, statistics may run;
    - [Published]: the output was uploaded;
    - [Closing]: final cleanup done (or skipped), local cleanup under way;
    - [Failed]: a call raised where nothing may follow. *)
Inductive Phase :=
| Early
| Loaded (dataFromPickle : PickleData)
| Holding (ds : Handle) (maxSegId : Z) (objs : list string) (g : History)
| Released (ds : Handle)
| Published
| Closing
| Failed.

(** The calls each phase admits, and the phase they lead to. *)
Definition protocol_step (a : Cmdargs) (p : Phase) (e : Event)
  : option Phase :=
  match p with
  | Early =>
      match e with
      | Ev_boto3_client _ _ | Ev_download_fileobj _ _ _ => Some Early
      | Ev_pickle_load _ (Ok data) => Some (Loaded data)
      | Ev_pickle_load _ (Raise _) => Some Failed
      | _ => None
      end
  | Loaded data =>
      match e with
      | Ev_gdal_Open _ _ | Ev_mkdtemp _ => Some (Loaded data)
      | Ev_finalize _ _ tf ti _ _ _ r =>
          if list_eq_dec
               (prod_eqdec (prod_eqdec Z.eq_dec Z.eq_dec) string_dec) tf
               (build_tileFilenames (bucket a) (tileprefix a)
                                    (colRowList data))
          then
            if Nat.eq_dec ti (tileInfo data) then
              match r with
              | Ok (m, _, ds) =>
                  Some (Holding ds m
                          (if noremove a then []
                           else tile_objs (tileprefix a) tf) [])
              | Raise _ => Some Failed
              end
            else None
          else None
      | _ => None
      end
  | Holding ds m (o :: objs') g =>
      match e with
      | Ev_delete_objects b keys r =>
          if string_dec b (bucket a) then
            if list_eq_dec string_dec keys (firstn batch_limit (o :: objs'))
            then Some (match r with
                       | Ok _ =>
                           Holding ds m (skipn batch_limit (o :: objs')) g
                       | Raise _ => Failed
                       end)
            else None
          else None
      | _ => None
      end
  | Holding ds m [] g =>
      match e with
      | Ev_del_localDs ds' =>
          if Nat.eq_dec ds' ds then
            if default_stats_done a m ds g then Some (Released ds) else None
          else None
      | _ =>
          match gdalstats_result e with
          | Some true => Some (Holding ds m [] (g ++ [e]))
          | Some false => Some Failed
          | None => None
          end
      end
  | Released ds =>
      match e with
      | Ev_download_fileobj _ _ _ | Ev_json_load _ _ | Ev_print _ _
      | Ev_calcPerSegmentStatsRIOS _ _ _ _ _ _
      | Ev_import_module _ _ | Ev_hasattr _ _ _ | Ev_getattr _ _ _
      | Ev_calcPerSegmentSpatialStatsRIOS _ _ _ _ _ _ _ _ =>
          Some (Released ds)
      | Ev_upload_file _ _ _ (Ok _) => Some Published
      | Ev_upload_file _ _ _ (Raise _) => Some Failed
      | _ => None
      end
  | Published =>
      match e with
      | Ev_delete_objects b keys r =>
          if noremove a then None
          else if string_dec b (bucket a) then
            if list_eq_dec string_dec keys (final_keys a)
            then Some (match r with Ok _ => Closing | Raise _ => Failed end)
            else None
          else None
      | Ev_rmtree _ _ => if noremove a then Some Closing else None
      | _ => None
      end
  | Closing =>
      match e with
      | Ev_rmtree _ _ | Ev_getrusage_maxrss _ | Ev_print _ _ => Some Closing
      | _ => None
      end
  | Failed => None
  end.

Fixpoint protocol_run (a : Cmdargs) (p : Phase) (t : History)
  : option Phase :=
  match t with
  | [] => Some p
  | e :: t' =>
      match protocol_step a p e with
      | Some p' => protocol_run a p' t'
      | None => None
      end
  end.

(** Phases in which a run can end: never with tile keys left to delete, and
    never between the upload and what follows it. *)
Definition final_ok (p : Phase) : Prop :=
  match p with
  | Holding _ _ objs _ => objs = []
  | Published => False
  | _ => True
  end.

Definition in_phase (a : Cmdargs) (p : Phase) (h : History) : Prop :=
  protocol_run a Early h = Some p.

Definition ends_well (a : Cmdargs) (h : History) : Prop :=
  exists p, in_phase a p h /\ final_ok p.

(** Handles the script holds in a phase. *)
Definition held_in (p : Phase) : nat :=
  match p with
  | Holding _ _ _ _ => 1
  | _ => 0
  end.

(** How far a phase is along the run. *)
Definition phase_rank (p : Phase) : nat :=
  match p with
  | Early => 0
  | Loaded _ => 1
  | Holding _ _ _ _ => 2
  | Released _ => 3
  | Published => 4
  | Closing => 5
  | Failed => 6
  end.

(** Phases from which no tile key remains to be deleted. *)
Definition keys_done (p : Phase) : Prop :=
  match p with
  | Early | Loaded _ | Holding _ _ (_ :: _) _ => False
  | _ => True
  end.

(** How a run gets to have released the handle [ds], seen from phase [p]. *)
Definition released_path (ds : Handle) (p : Phase) (t : History) : Prop :=
  match p with
  | Early | Loaded _ =>
      exists p1 fin p2 p3,
        t = p1 ++ fin :: p2 ++ Ev_del_localDs ds :: p3 /\
        finalize_returned fin = Some ds
  | Holding ds' _ _ _ =>
      ds' = ds /\ exists p2 p3, t = p2 ++ Ev_del_localDs ds :: p3
  | Released ds' => ds' = ds
  | _ => False
  end.

(* ===================================================================== *)
(** ** Example runs *)
(* ===================================================================== *)

Definition example_cmdargs : Cmdargs :=
  {| bucket := "segs";
     infile := "in/mosaic.tif";
     outfile := "out/segs.kea";
     tileprefix := "run1";
     pickle := "run1.pkl";
     overlapsize := 100;
     stats := Some "docs:agg.json";
     spatialstats := Some "docs:spatial.json";
     nogdalstats := false;
     noremove := false;
     statsreadworkers := 2;
     readworkerstimeouts := Some 30%Z |}.

(** The same run with an aggregate locator that has no colon. *)
Definition example_unparsed_cmdargs : Cmdargs :=
  {| bucket := "segs";
     infile := "in/mosaic.tif";
     outfile := "out/segs.kea";
     tileprefix := "run1";
     pickle := "run1.pkl";
     overlapsize := 100;
     stats := Some "agg.json";
     spatialstats := None;
     nogdalstats := false;
     noremove := false;
     statsreadworkers := 2;
     readworkerstimeouts := None |}.

(** A run that keeps its intermediates and skips the GDAL statistics. *)
Definition example_keep_cmdargs : Cmdargs :=
  {| bucket := "segs";
     infile := "in/mosaic.tif";
     outfile := "out/segs.kea";
     tileprefix := "run1";
     pickle := "run1.pkl";
     overlapsize := 100;
     stats := None;
     spatialstats := None;
     nogdalstats := true;
     noremove := true;
     statsreadworkers := 0;
     readworkerstimeouts := None |}.

Definition example_agg_doc : json :=
  JArr [JArr [JStr "img.tif"; JNum 1; JArr [JArr [JStr "mean_b1"; JStr "mean"]]]].

Definition example_spatial_doc : json :=
  JArr [JArr [JStr "img.tif"; JNum 1; JArr [JArr [JStr "vario"; JNum 0]];
              JStr "mypkg.myfunc"; JNum 3]].

Definition example_coords : list (Z * Z) :=
  [(0, 0); (0, 1); (1, 0); (1, 1)]%Z.

(** A world in which every call succeeds; the module [mypkg] has the one
    attribute [myfunc]. *)
Definition example_world : World :=
  {| w_boto3_client := fun _ _ => Ok tt;
     w_download_fileobj := fun _ _ Key =>
       if String.eqb Key "agg.json" then Ok [Byte.x01]
       else if String.eqb Key "spatial.json" then Ok [Byte.x02]
       else Ok [Byte.x00];
     w_pickle_load := fun _ _ =>
       Ok {| colRowList := example_coords; tileInfo := 7 |};
     w_gdal_Open := fun _ _ => Ok 1;
     w_mkdtemp := fun _ => Ok "/tmp/tmpab12";
     w_finalize := fun _ _ _ _ _ _ _ _ => Ok (41%Z, false, 2);
     w_delete_objects := fun _ _ _ => Ok tt;
     w_GetRasterBand := fun _ _ _ => Ok 3;
     w_GetDefaultRAT := fun _ _ => Ok 4;
     w_GetColOfUsage_PixelCount := fun _ _ => Ok 0%Z;
     w_ReadAsArray := fun _ _ _ => Ok [0; 12; 30]%Z;
     w_estimateStatsFromHisto := fun _ _ _ => Ok tt;
     w_writeRandomColourTable := fun _ _ _ => Ok tt;
     w_addOverviews := fun _ _ => Ok tt;
     w_json_load := fun _ data =>
       match data with
       | [Byte.x01] => Ok example_agg_doc
       | [Byte.x02] => Ok example_spatial_doc
       | _ => Raise (OtherError "JSONDecodeError" "Expecting value")
       end;
     w_print := fun _ _ => Ok tt;
     w_calcPerSegmentStatsRIOS := fun _ _ _ _ _ _ => Ok tt;
     w_import_module := fun _ name =>
       if String.eqb name "mypkg" then Ok 5
       else Raise (OtherError "ModuleNotFoundError" name);
     w_hasattr := fun _ _ name => Ok (String.eqb name "myfunc");
     w_getattr := fun _ _ _ => Ok 6;
     w_calcPerSegmentSpatialStatsRIOS := fun _ _ _ _ _ _ _ _ => Ok tt;
     w_upload_file := fun _ _ _ _ => Ok tt;
     w_rmtree := fun _ _ => Ok tt;
     w_getrusage_maxrss := fun _ => Ok 123456%Z |}.

(** The calls of the example run. *)
Definition example_trace : History :=
  Eval vm_compute in trace_of (main example_world example_cmdargs).

(** A dict of 2500 tiles in one row. *)
Definition example_many_tiles : list ((Z * Z) * string) :=
  build_tileFilenames "segs" "run1"
    (map (fun n => (Z.of_nat n, 0%Z)) (seq 0 2500)).

(* ===================================================================== *)
(** * Properties *)
(* ===================================================================== *)

(* --------------------------------------------------------------------- *)
(** ** Strings: cutting at separators, printing integers *)
(* --------------------------------------------------------------------- *)

Section StringFacts.

Lemma append_inj_l (p a b : string) : (p ++ a = p ++ b)%string -> a = b.
Proof.
  induction p as [|c p IH]; simpl; intros H; [exact H|].
  injection H as H. auto.
Qed.

Lemma count_append c (a b : string) :
  Py.count c (a ++ b)%string = Py.count c a + Py.count c b.
Proof.
  induction a as [|x a IH]; simpl; [reflexivity|]. rewrite IH. lia.
Qed.

(** A string is cut at the first occurrence of a separator in one way only. *)
Lemma cut_at_first_sep c (a1 a2 r1 r2 : string) :
  Py.count c a1 = 0 -> Py.count c a2 = 0 ->
  (a1 ++ String c r1 = a2 ++ String c r2)%string ->
  a1 = a2 /\ r1 = r2.
Proof.
  revert a2. induction a1 as [|x a1 IH]; intros [|y a2]; simpl; intros H1 H2 E.
  - injection E as E. auto.
  - injection E as E1 E. subst y. rewrite Ascii.eqb_refl in H2. discriminate.
  - injection E as E1 E. subst x. rewrite Ascii.eqb_refl in H1. discriminate.
  - injection E as E1 E. subst y.
    destruct (Ascii.eqb x c); [discriminate|].
    destruct (IH a2 H1 H2 E) as [-> ->]. auto.
Qed.

Lemma to_uint_nonnil p : Pos.to_uint p <> Decimal.Nil.
Proof.
  intros E. pose proof (DecimalPos.Unsigned.of_to p) as H.
  rewrite E in H. discriminate.
Qed.

Lemma str_of_int_inj z1 z2 : Py.str_of_int z1 = Py.str_of_int z2 -> z1 = z2.
Proof.
  unfold Py.str_of_int. intros E.
  assert (N : forall z, Z.to_int z <> Decimal.Pos Decimal.Nil /\
                        Z.to_int z <> Decimal.Neg Decimal.Nil).
  { intros [|p|p]; simpl; split; try discriminate;
      intros H; injection H as H; exact (to_uint_nonnil _ H). }
  pose proof (NilZero.isi _ (proj1 (N z1)) (proj2 (N z1))) as E1.
  pose proof (NilZero.isi _ (proj1 (N z2)) (proj2 (N z2))) as E2.
  rewrite E in E1. rewrite E1 in E2. injection E2 as E2.
  rewrite <- (DecimalZ.of_to z1), <- (DecimalZ.of_to z2). now f_equal.
Qed.

Lemma digits_no_underscore d : Py.count "_" (NilEmpty.string_of_uint d) = 0.
Proof. induction d; simpl; auto. Qed.

Lemma digits_no_dot d : Py.count "." (NilEmpty.string_of_uint d) = 0.
Proof. induction d; simpl; auto. Qed.

Lemma str_of_int_no_underscore z : Py.count "_" (Py.str_of_int z) = 0.
Proof.
  unfold Py.str_of_int, NilZero.string_of_int, NilZero.string_of_uint.
  destruct (Z.to_int z) as [d|d]; destruct d; simpl;
    auto using digits_no_underscore.
Qed.

Lemma str_of_int_no_dot z : Py.count "." (Py.str_of_int z) = 0.
Proof.
  unfold Py.str_of_int, NilZero.string_of_int, NilZero.string_of_uint.
  destruct (Z.to_int z) as [d|d]; destruct d; simpl;
    auto using digits_no_dot.
Qed.

Lemma tile_key_inj prefix c1 r1 c2 r2 :
  tile_key prefix c1 r1 = tile_key prefix c2 r2 -> (c1, r1) = (c2, r2).
Proof.
  unfold tile_key. intros E.
  apply append_inj_l in E. simpl in E. injection E as E.
  apply cut_at_first_sep in E; try apply str_of_int_no_underscore.
  destruct E as [Ec E].
  apply cut_at_first_sep in E; try apply str_of_int_no_dot.
  destruct E as [Er _].
  apply str_of_int_inj in Ec, Er. congruence.
Qed.

End StringFacts.

(* --------------------------------------------------------------------- *)
(** ** Rules of the weakest precondition *)
(* --------------------------------------------------------------------- *)

Section WP.
Context {A B : Type}.
Implicit Types (Q : A -> History -> Prop) (E : exn -> History -> Prop).

Lemma wp_ret (a : A) Q E h : Q a h -> wp (ret a) Q E h.
Proof. exact (fun H => H). Qed.

Lemma wp_raise e Q E h : E e h -> wp (@raise A e) Q E h.
Proof. exact (fun H => H). Qed.

Lemma wp_lift (r : result A) Q E h :
  match r with Ok a => Q a h | Raise e => E e h end -> wp (lift r) Q E h.
Proof. unfold wp, lift. destruct r; auto. Qed.

Lemma wp_call (o : History -> result A) ev Q E h :
  match o h with
  | Ok a => Q a (h ++ [ev (Ok a)])
  | Raise e => E e (h ++ [ev (Raise e)])
  end -> wp (call o ev) Q E h.
Proof. unfold wp, call. destruct (o h); auto. Qed.

Lemma wp_bind (m : M A) (f : A -> M B) (R : B -> History -> Prop) E h :
  wp m (fun a h' => wp (f a) R E h') E h -> wp (bind m f) R E h.
Proof. unfold wp, bind. destruct (m h) as [h' [a|e]]; auto. Qed.

Lemma wp_mono (m : M A) Q Q' E E' h :
  wp m Q E h ->
  (forall a h', Q a h' -> Q' a h') ->
  (forall e h', E e h' -> E' e h') ->
  wp m Q' E' h.
Proof. unfold wp. destruct (m h) as [h' [a|e]]; auto. Qed.

Lemma wp_run (m : M A) Q E h :
  wp m Q E h ->
  match snd (m h) with
  | Ok a => Q a (fst (m h))
  | Raise e => E e (fst (m h))
  end.
Proof. unfold wp. destruct (m h) as [h' [a|e]]; auto. Qed.
End WP.

Lemma wp_emit e Q E h : Q tt (h ++ [e]) -> wp (emit e) Q E h.
Proof. exact (fun H => H). Qed.

Lemma wp_for_each {A} (I : History -> Prop) E (xs : list A) body h :
  (forall x h', In x xs -> I h' -> wp (body x) (fun _ => I) E h') ->
  I h -> wp (for_each xs body) (fun _ => I) E h.
Proof.
  revert h. induction xs as [|x xs IH]; intros h Hb Hh; simpl.
  - now apply wp_ret.
  - apply wp_bind. eapply wp_mono.
    + apply Hb; [now left | exact Hh].
    + intros u h' Hh'. apply IH; auto. intros; apply Hb; auto. now right.
    + auto.
Qed.

Lemma delete_in_batches_nil W a : delete_in_batches W a [] = ret tt.
Proof. now simp delete_in_batches. Qed.

Lemma delete_in_batches_step W a objs h :
  objs <> [] ->
  delete_in_batches W a objs h =
  (s3_delete_objects W (bucket a) (firstn batch_limit objs) ;;
   delete_in_batches W a (skipn batch_limit objs)) h.
Proof.
  destruct objs as [|o objs']; [congruence|]. intros _.
  now rewrite delete_in_batches_equation_2.
Qed.

Lemma batch_limit_pos : 0 < batch_limit.
Proof. unfold batch_limit. lia. Qed.

Lemma skipn_batch_shorter (objs : list string) :
  objs <> [] -> List.length (skipn batch_limit objs) < List.length objs.
Proof.
  intros Hne. rewrite length_skipn. pose proof batch_limit_pos.
  destruct objs; [congruence|]. cbn [List.length]. lia.
Qed.

Lemma firstn_batch_nonempty (objs : list string) :
  objs <> [] -> firstn batch_limit objs <> [].
Proof.
  intros Hne E. apply (f_equal (@List.length _)) in E.
  rewrite length_firstn in E. pose proof batch_limit_pos.
  destruct objs; [congruence|]. cbn [List.length] in E. lia.
Qed.

Lemma wp_delete_in_batches W a (I : History -> Prop) E objs h :
  (forall h' keys, I h' -> keys <> [] -> List.length keys <= batch_limit ->
     match w_delete_objects W h' (bucket a) keys with
     | Ok u => I (h' ++ [Ev_delete_objects (bucket a) keys (Ok u)])
     | Raise e => E e (h' ++ [Ev_delete_objects (bucket a) keys (Raise e)])
     end) ->
  I h -> wp (delete_in_batches W a objs) (fun _ => I) E h.
Proof.
  intros Hstep. remember (List.length objs) as n eqn:Hn.
  revert objs Hn h. induction n as [n IH] using lt_wf_ind. intros objs Hn h Hh.
  destruct (list_eq_dec string_dec objs []) as [->|Hne].
  - rewrite delete_in_batches_nil. now apply wp_ret.
  - unfold wp. rewrite delete_in_batches_step by assumption.
    apply wp_bind, wp_call.
    specialize (Hstep h _ Hh (firstn_batch_nonempty _ Hne) (firstn_le_length _ _)).
    destruct (w_delete_objects _ _ _ _); auto.
    eapply IH; [| reflexivity | exact Hstep].
    subst n. now apply skipn_batch_shorter.
Qed.

(* --------------------------------------------------------------------- *)
(** ** Programs and the events they emit *)
(* --------------------------------------------------------------------- *)

Section Emits.
Context (P : Event -> Prop).

Lemma emits_ret {A} (a : A) : emits_only P (ret a).
Proof. intros I h _ Hh. now apply wp_ret. Qed.

Lemma emits_raise {A} e : emits_only P (@raise A e).
Proof. intros I h _ Hh. now apply wp_raise. Qed.

Lemma emits_lift {A} (r : result A) : emits_only P (lift r).
Proof. intros I h _ Hh. apply wp_lift. now destruct r. Qed.

Lemma emits_call {A} (o : History -> result A) ev :
  (forall r, P (ev r)) -> emits_only P (call o ev).
Proof.
  intros Hev I h HI Hh. apply wp_call. destruct (o h); apply HI; auto.
Qed.

Lemma emits_emit e : P e -> emits_only P (emit e).
Proof. intros He I h HI Hh. apply wp_emit. now apply HI. Qed.

Lemma emits_bind {A B} (m : M A) (f : A -> M B) :
  emits_only P m -> (forall a, emits_only P (f a)) -> emits_only P (bind m f).
Proof.
  intros Hm Hf I h HI Hh. apply wp_bind.
  eapply wp_mono; [apply Hm; eauto | | auto].
  intros a h' Hh'. now apply Hf.
Qed.

Lemma emits_for_each {A} (xs : list A) body :
  (forall x, emits_only P (body x)) -> emits_only P (for_each xs body).
Proof.
  intros Hb. induction xs as [|x xs IH]; simpl.
  - apply emits_ret.
  - apply emits_bind; auto.
Qed.
End Emits.

Lemma emits_weaken {A} (P P' : Event -> Prop) (m : M A) :
  (forall e, P e -> P' e) -> emits_only P m -> emits_only P' m.
Proof.
  intros HP Hm I h HI Hh. apply Hm; auto.
  intros h' e Hh' He. apply HI; auto.
Qed.

Create HintDb calls.

#[local] Hint Unfold boto3_client s3_download_fileobj pickle_load gdal_Open
  tempfile_mkdtemp doTiledShepherdSegmentation_finalize s3_delete_objects
  GetRasterBand GetDefaultRAT GetColOfUsage_PixelCount ReadAsArray
  estimateStatsFromHisto writeRandomColourTable addOverviews json_load print
  calcPerSegmentStatsRIOS import_module hasattr getattr
  calcPerSegmentSpatialStatsRIOS s3_upload_file shutil_rmtree
  getrusage_maxrss : calls.

Ltac emits_tac :=
  repeat first
    [ apply emits_ret | apply emits_raise | apply emits_lift
    | apply emits_bind; [| intros ?]
    | apply emits_for_each; intros ?
    | apply emits_call; intros ?; simpl; auto
    | apply emits_emit; simpl; auto
    | match goal with
      | |- emits_only _ (match ?x with _ => _ end) => destruct x
      | |- emits_only _ (if ?x then _ else _) => destruct x
      end ].

Lemma wp_bind_emits {A B} (P : Event -> Prop) (I : History -> Prop)
    (m : M A) (f : A -> M B) Q E h :
  emits_only P m -> stable I P -> I h ->
  (forall e h', I h' -> E e h') ->
  (forall a h', I h' -> wp (f a) Q E h') ->
  wp (bind m f) Q E h.
Proof.
  intros Hm HI Hh HE Hf. apply wp_bind.
  eapply wp_mono; [apply (Hm I h HI Hh) | |]; simpl; auto.
Qed.

Lemma emits_delete_in_batches W a objs :
  emits_only (fun e => exists keys r, e = Ev_delete_objects (bucket a) keys r)
             (delete_in_batches W a objs).
Proof.
  intros I h HI Hh. apply wp_delete_in_batches; auto.
  intros h' keys Hh' _ _.
  destruct (w_delete_objects W h' (bucket a) keys); apply HI; eauto.
Qed.

Lemma emits_tile_cleanup W a tf :
  emits_only (is_delete_on (bucket a)) (tile_cleanup W a tf).
Proof.
  unfold tile_cleanup. destruct (negb (noremove a)); [|apply emits_ret].
  eapply emits_weaken; [|apply emits_delete_in_batches].
  intros e (keys & r & ->). reflexivity.
Qed.

Lemma emits_default_stats W a m ds :
  emits_only is_gdalstats (default_stats W a m ds).
Proof. unfold default_stats. autounfold with calls. emits_tac. Qed.

(* --------------------------------------------------------------------- *)
(** ** Python's [split] and [join] *)
(* --------------------------------------------------------------------- *)

Lemma split_nonempty c s : Py.split c s <> [].
Proof.
  destruct s as [|x s]; simpl; [discriminate|].
  destruct (Ascii.eqb x c); [discriminate|].
  destruct (Py.split c s); discriminate.
Qed.

Lemma split_length c s : List.length (Py.split c s) = S (Py.count c s).
Proof.
  induction s as [|x s IH]; simpl; [reflexivity|].
  destruct (Ascii.eqb x c); simpl; [now rewrite IH|].
  destruct (Py.split c s); simpl in *; lia.
Qed.

Lemma split_no_sep c s : Py.count c s = 0 -> Py.split c s = [s].
Proof.
  induction s as [|x s IH]; simpl; [reflexivity|].
  destruct (Ascii.eqb x c); [discriminate|]. simpl. intros H.
  now rewrite IH.
Qed.

Lemma split_append_sep c a b :
  Py.split c (a ++ String c b)%string = Py.split c a ++ Py.split c b.
Proof.
  induction a as [|x a IH]; simpl.
  - now rewrite Ascii.eqb_refl.
  - destruct (Ascii.eqb x c); simpl; [now rewrite IH|].
    rewrite IH. pose proof (split_nonempty c a).
    destruct (Py.split c a); [congruence|reflexivity].
Qed.

Lemma join_split c s : Py.join (String c EmptyString) (Py.split c s) = s.
Proof.
  induction s as [|x s IH]; simpl; [reflexivity|].
  destruct (Ascii.eqb x c) eqn:E.
  - apply Ascii.eqb_eq in E. subst x.
    pose proof (split_nonempty c s).
    destruct (Py.split c s) as [|p rest] eqn:Es; [congruence|].
    simpl. simpl in IH. now rewrite IH.
  - pose proof (split_nonempty c s).
    destruct (Py.split c s) as [|p rest] eqn:Es; [congruence|].
    destruct rest as [|q rest]; simpl in *; congruence.
Qed.

(** A string with exactly one separator is cut in two pieces. *)
Lemma split_one_sep c s :
  Py.count c s = 1 ->
  exists b k, s = (b ++ String c k)%string /\ Py.split c s = [b; k] /\
              Py.count c b = 0 /\ Py.count c k = 0.
Proof.
  intros Hc. pose proof (split_length c s) as Hl. rewrite Hc in Hl.
  destruct (Py.split c s) as [|b [|k [|x rest]]] eqn:Es; try discriminate.
  exists b, k. pose proof (join_split c s) as Hj. rewrite Es in Hj. simpl in Hj.
  assert (s = (b ++ String c k)%string) as -> by (now rewrite <- Hj).
  split; [reflexivity|]. split; [reflexivity|].
  rewrite count_append in Hc. simpl in Hc. rewrite Ascii.eqb_refl in Hc.
  lia.
Qed.

Lemma split_cut c b k :
  Py.count c b = 0 -> Py.count c k = 0 ->
  Py.split c (b ++ String c k)%string = [b; k].
Proof.
  intros Hb Hk. now rewrite split_append_sep, (split_no_sep c b), (split_no_sep c k).
Qed.

(** Cutting at the last separator: the module path and the function name. *)
Lemma split_last c mp fn :
  Py.count c fn = 0 ->
  let arr := Py.split c (mp ++ String c fn)%string in
  2 <= List.length arr /\
  Py.join (String c EmptyString) (removelast arr) = mp /\
  last arr EmptyString = fn.
Proof.
  intros Hfn arr. subst arr.
  rewrite split_append_sep, (split_no_sep c fn) by assumption.
  rewrite removelast_last, last_last, join_split, List.length_app, split_length.
  simpl. repeat split; lia.
Qed.

(* --------------------------------------------------------------------- *)
(** ** The [tileFilenames] dict *)
(* --------------------------------------------------------------------- *)

Lemma coord_eqb_eq a b : coord_eqb a b = true <-> a = b.
Proof.
  unfold coord_eqb. destruct a as [c r], b as [c' r']. simpl.
  rewrite andb_true_iff, !Z.eqb_eq. split; [intros []; congruence|].
  intros E; injection E; auto.
Qed.

Section DictFacts.
Context {V : Type}.
Implicit Types (d : list ((Z * Z) * V)) (k : Z * Z).

Lemma keys_setitem_in d k v :
  In k (Py.keys d) -> Py.keys (Py.setitem coord_eqb d k v) = Py.keys d.
Proof.
  induction d as [|[k' v'] d IH]; simpl; [contradiction|].
  destruct (coord_eqb k' k) eqn:E; [reflexivity|].
  intros [->|Hin].
  - assert (coord_eqb k k = true) by now apply coord_eqb_eq. congruence.
  - simpl. now rewrite IH.
Qed.

Lemma keys_setitem_fresh d k v :
  ~ In k (Py.keys d) -> Py.keys (Py.setitem coord_eqb d k v) = Py.keys d ++ [k].
Proof.
  induction d as [|[k' v'] d IH]; simpl; [reflexivity|].
  intros Hn. destruct (coord_eqb k' k) eqn:E.
  - apply coord_eqb_eq in E. tauto.
  - simpl. rewrite IH; tauto.
Qed.

Lemma values_setitem_fresh d k v :
  ~ In k (Py.keys d) ->
  Py.values (Py.setitem coord_eqb d k v) = Py.values d ++ [v].
Proof.
  induction d as [|[k' v'] d IH]; simpl; [reflexivity|].
  intros Hn. destruct (coord_eqb k' k) eqn:E.
  - apply coord_eqb_eq in E. tauto.
  - simpl. rewrite IH; tauto.
Qed.

Lemma keys_setitem_nodup d k v :
  NoDup (Py.keys d) -> NoDup (Py.keys (Py.setitem coord_eqb d k v)).
Proof.
  intros Hd. destruct (in_dec (prod_eqdec Z.eq_dec Z.eq_dec) k (Py.keys d)).
  - now rewrite keys_setitem_in.
  - rewrite keys_setitem_fresh by assumption.
    apply NoDup_app; auto. 
    + constructor; [intros []|constructor].
    + intros x Hx [<-|[]]. contradiction.
Qed.
End DictFacts.

Lemma tile_objs_map prefix tf :
  tile_objs prefix tf = map (key_of_coord prefix) (Py.keys tf).
Proof.
  unfold tile_objs. apply map_ext. now intros [c r].
Qed.

Lemma key_of_coord_inj prefix x y :
  key_of_coord prefix x = key_of_coord prefix y -> x = y.
Proof.
  destruct x, y. unfold key_of_coord. simpl. apply tile_key_inj.
Qed.

Lemma NoDup_map_injective {A B} (f : A -> B) (l : list A) :
  (forall x y, f x = f y -> x = y) -> NoDup l -> NoDup (map f l).
Proof.
  intros Hf. induction 1 as [|x l Hx Hl IH]; simpl; constructor; auto.
  rewrite in_map_iff. intros (y & E & Hy). apply Hf in E. now subst y.
Qed.

Section BuildFacts.
Context (bucket prefix : string).

Lemma fold_keys_nodup l acc :
  NoDup (Py.keys acc) -> NoDup (Py.keys (fold_left (set_tile bucket prefix) l acc)).
Proof.
  revert acc. induction l as [|[c r] l IH]; intros acc Hacc; simpl; auto.
  apply IH. now apply keys_setitem_nodup.
Qed.

Lemma fold_fresh l acc :
  NoDup (Py.keys acc ++ l) ->
  Py.keys (fold_left (set_tile bucket prefix) l acc) = Py.keys acc ++ l /\
  Py.values (fold_left (set_tile bucket prefix) l acc) =
    Py.values acc ++ map (fun cr => tile_filename bucket prefix (fst cr) (snd cr)) l.
Proof.
  revert acc. induction l as [|[c r] l IH]; intros acc Hnd; simpl.
  - now rewrite !List.app_nil_r.
  - assert (~ In (c, r) (Py.keys acc)) as Hfresh.
    { intros Hin. apply NoDup_remove_2 in Hnd. apply Hnd.
      apply in_or_app. now left. }
    destruct (IH (Py.setitem coord_eqb acc (c, r) (tile_filename bucket prefix c r)))
      as [Hk Hv].
    { rewrite keys_setitem_fresh by assumption. now rewrite <- List.app_assoc. }
    rewrite Hk, Hv, keys_setitem_fresh, values_setitem_fresh by assumption.
    now rewrite <- !List.app_assoc.
Qed.

Lemma build_keys_nodup l :
  NoDup (Py.keys (build_tileFilenames bucket prefix l)).
Proof. apply fold_keys_nodup. constructor. Qed.

Lemma build_fresh l :
  NoDup l ->
  Py.keys (build_tileFilenames bucket prefix l) = l /\
  Py.values (build_tileFilenames bucket prefix l) =
    map (fun cr => tile_filename bucket prefix (fst cr) (snd cr)) l.
Proof. intros H. now apply (fold_fresh l []). Qed.

Lemma build_objs_nodup l :
  NoDup (tile_objs prefix (build_tileFilenames bucket prefix l)).
Proof.
  rewrite tile_objs_map. apply NoDup_map_injective.
  - apply key_of_coord_inj.
  - apply build_keys_nodup.
Qed.
End BuildFacts.

(** Claim C8.  For pairwise distinct coordinates and a fixed prefix the
    tile keys are as many as the coordinates and pairwise distinct; the dict
    built by the script then has exactly these coordinates as keys, their
    keys as objects to delete and their GDAL paths as values.  Equal inputs
    give equal keys. *)
Theorem tile_keys_distinct (prefix : string) (coords : list (Z * Z)) :
  NoDup coords ->
  let keys := map (fun '(col, row) => tile_key prefix col row) coords in
  List.length keys = List.length coords /\
  NoDup keys /\
  (forall bucket,
     Py.keys (build_tileFilenames bucket prefix coords) = coords /\
     tile_objs prefix (build_tileFilenames bucket prefix coords) = keys /\
     Py.values (build_tileFilenames bucket prefix coords) =
       map (fun key => "/vsis3/" ++ bucket ++ "/" ++ key)%string keys) /\
  (forall p p' c c' r r',
     p = p' -> c = c' -> r = r' -> tile_key p c r = tile_key p' c' r').
Proof.
  intros Hnd keys.
  assert (Hk : keys = map (key_of_coord prefix) coords)
    by (apply map_ext; now intros [c r]).
  split; [apply length_map|]. split.
  - rewrite Hk. apply NoDup_map_injective; [apply key_of_coord_inj | exact Hnd].
  - split.
    + intros bucket. destruct (build_fresh bucket prefix coords Hnd) as [Ek Ev].
      split; [exact Ek|]. split.
      * unfold tile_objs. now rewrite Ek.
      * rewrite Ev. unfold keys. rewrite map_map. apply map_ext.
        now intros [c r].
    + intros; subst; reflexivity.
Qed.

(* --------------------------------------------------------------------- *)
(** ** Deleting in batches *)
(* --------------------------------------------------------------------- *)

Lemma batch_sizes_step K :
  0 < K -> batch_sizes K = Nat.min batch_limit K :: batch_sizes (K - batch_limit).
Proof.
  intros HK. unfold batch_sizes.
  destruct (Nat.lt_ge_cases K batch_limit) as [Hlt|Hge].
  - rewrite Nat.div_small, Nat.mod_small by assumption.
    replace (K - batch_limit) with 0 by lia.
    rewrite Nat.min_r by lia.
    destruct (Nat.eqb_spec K 0); [lia|]. reflexivity.
  - assert (E : K = (K - batch_limit) + 1 * batch_limit) by lia.
    assert (Hd : K / batch_limit = S ((K - batch_limit) / batch_limit)).
    { rewrite E at 1. rewrite Nat.div_add by (unfold batch_limit; lia). lia. }
    assert (Hm : K mod batch_limit = (K - batch_limit) mod batch_limit).
    { rewrite E at 1. now rewrite Nat.Div0.mod_add. }
    rewrite Hd, Hm, Nat.min_l by lia. reflexivity.
Qed.

Lemma batch_sizes_length K : List.length (batch_sizes K) = ceil_div K batch_limit.
Proof.
  unfold batch_sizes, ceil_div. rewrite List.length_app, repeat_length.
  pose proof batch_limit_pos as Hpos.
  pose proof (Nat.div_mod_eq K batch_limit) as E.
  pose proof (Nat.mod_upper_bound K batch_limit ltac:(lia)) as Hm.
  remember (K / batch_limit) as q. remember (K mod batch_limit) as r.
  remember batch_limit as bl. clear Heqq Heqr Heqbl.
  destruct (Nat.eqb_spec r 0) as [H0|H0]; cbn [List.length].
  - apply Nat.div_unique with (r := bl - 1); lia.
  - apply Nat.div_unique with (r := r - 1); lia.
Qed.

Lemma batch_sizes_bound K : Forall (fun n => n <= batch_limit) (batch_sizes K).
Proof.
  unfold batch_sizes. apply Forall_app. split.
  - apply Forall_forall. intros n Hn. apply repeat_spec in Hn. lia.
  - pose proof batch_limit_pos as Hpos.
    pose proof (Nat.mod_upper_bound K batch_limit ltac:(lia)).
    destruct (_ =? _)%nat; [constructor | constructor; [lia | constructor]].
Qed.

Section TileCleanup.
Context (W : World) (a : Cmdargs).

(** A run of the batching loop that ends normally issued one successful
    call per batch; the batches are consecutive slices of the key list. *)
Lemma delete_in_batches_ok objs : forall h h',
  delete_in_batches W a objs h = (h', Ok tt) ->
  exists bs,
    h' = h ++ map (ok_delete a) bs /\
    List.concat bs = objs /\
    map (@List.length string) bs = batch_sizes (List.length objs).
Proof.
  remember (List.length objs) as n eqn:Hn. revert objs Hn.
  induction n as [n IH] using lt_wf_ind. intros objs Hn h h' Hrun.
  destruct (list_eq_dec string_dec objs []) as [->|Hne].
  - rewrite delete_in_batches_nil in Hrun. injection Hrun as <-.
    exists []. subst n. simpl. now rewrite List.app_nil_r.
  - rewrite delete_in_batches_step in Hrun by assumption.
    unfold bind, s3_delete_objects, call in Hrun.
    destruct (w_delete_objects W h (bucket a) (firstn batch_limit objs))
      as [[]|e] eqn:Er; [|discriminate].
    pose proof (skipn_batch_shorter objs Hne) as Hlt.
    destruct (IH _ ltac:(subst n; exact Hlt) _ eq_refl _ _ Hrun)
      as (bs & Hh' & Hcat & Hlen).
    exists (firstn batch_limit objs :: bs). repeat split.
    + rewrite Hh', <- List.app_assoc. reflexivity.
    + cbn [List.concat]. rewrite Hcat. apply firstn_skipn.
    + cbn [map]. rewrite Hlen, length_firstn, length_skipn, <- Hn.
      symmetry. apply batch_sizes_step. destruct objs; [congruence|].
      subst n. cbn [List.length]. lia.
Qed.

Lemma delete_batches_ok bs : delete_batches (map (ok_delete a) bs) = bs.
Proof. induction bs as [|b bs IH]; simpl; congruence. Qed.

End TileCleanup.

Lemma lengths_le (bs : list (list string)) n :
  Forall (fun k => k <= n) (map (@List.length string) bs) ->
  Forall (fun b => List.length b <= n) bs.
Proof. rewrite Forall_map. auto. Qed.

(** The loop returns normally when no deletion fails. *)
Lemma delete_in_batches_returns W a objs h :
  (forall h0 keys, w_delete_objects W h0 (bucket a) keys = Ok tt) ->
  exists h', delete_in_batches W a objs h = (h', Ok tt).
Proof.
  intros Hok.
  assert (H : wp (delete_in_batches W a objs) (fun _ _ => True)
                 (fun _ _ => False) h).
  { apply (wp_delete_in_batches W a (fun _ => True)); [|exact I].
    intros h0 keys _ _ _. now rewrite Hok. }
  unfold wp in H. destruct (delete_in_batches W a objs h) as [h' [[]|e]];
    [eauto|contradiction].
Qed.

(** [ceil_div a b] is the least number of groups of [b] that hold [a]. *)
Lemma ceil_div_spec a b :
  0 < b -> a <= b * ceil_div a b /\ b * ceil_div a b < a + b.
Proof.
  intros Hb. unfold ceil_div.
  pose proof (Nat.div_mod_eq (a + b - 1) b) as E.
  pose proof (Nat.mod_upper_bound (a + b - 1) b ltac:(lia)) as Hm.
  remember ((a + b - 1) / b) as q. remember ((a + b - 1) mod b) as r.
  nia.
Qed.

(** Claim C2.  With [--noremove] unset, the tile cleanup of lines 108-117
    returns normally when no deletion fails; and whenever it returns
    normally, the calls it appended to the history are exactly its
    successful [delete_objects] calls on the main bucket; there are
    [ceil(K/1000)] of them for [K] keys, every batch has at most 1000 keys,
    the batches concatenated give back the key list (with no duplicates when
    the dict was built by the script), no call is made for [K = 0], and the
    batch sizes are 1000, 1000, 500 for [K = 2500]. *)
Theorem tile_cleanup_batches W a tileFilenames h :
  noremove a = false ->
  let objs := tile_objs (tileprefix a) tileFilenames in
  let K := List.length objs in
  ((forall h0 keys, w_delete_objects W h0 (bucket a) keys = Ok tt) ->
   exists h', tile_cleanup W a tileFilenames h = (h', Ok tt)) /\
  (forall h',
     tile_cleanup W a tileFilenames h = (h', Ok tt) ->
     exists t,
       h' = h ++ t /\
       let batches := delete_batches t in
       t = map (fun keys => Ev_delete_objects (bucket a) keys (Ok tt))
               batches /\
       List.length t = ceil_div K 1000 /\
       Forall (fun b => List.length b <= 1000) batches /\
       List.concat batches = objs /\
       (forall colRowList,
          tileFilenames =
            build_tileFilenames (bucket a) (tileprefix a) colRowList ->
          NoDup (List.concat batches)) /\
       (K = 0 -> t = []) /\
       (K = 2500 -> map (@List.length string) batches = [1000; 1000; 500])).
Proof.
  intros Hflag objs K. split.
  { intros Hok. unfold tile_cleanup. rewrite Hflag. cbn [negb].
    now apply delete_in_batches_returns. }
  intros h' Hrun. unfold tile_cleanup in Hrun.
  rewrite Hflag in Hrun. cbn [negb] in Hrun.
  apply delete_in_batches_ok in Hrun. destruct Hrun as (bs & Hh' & Hcat & Hlen).
  fold objs in Hcat, Hlen. fold K in Hlen.
  exists (map (ok_delete a) bs). split; [exact Hh'|].
  cbv zeta. rewrite delete_batches_ok.
  split; [reflexivity|].
  split. { rewrite length_map, <- (length_map (@List.length string)), Hlen.
           apply batch_sizes_length. }
  split. { apply lengths_le. rewrite Hlen. apply batch_sizes_bound. }
  split; [exact Hcat|].
  split. { intros crl ->. rewrite Hcat. apply build_objs_nodup. }
  split.
  - intros HK. rewrite HK in Hlen.
    destruct bs; [reflexivity|discriminate].
  - intros HK. rewrite Hlen, HK. reflexivity.
Qed.

(* --------------------------------------------------------------------- *)
(** ** Resolving user functions *)
(* --------------------------------------------------------------------- *)

(** A string with a separator is cut at its last separator. *)
Lemma cut_at_last_sep c s :
  1 <= Py.count c s ->
  exists mp fn, s = (mp ++ String c fn)%string /\ Py.count c fn = 0.
Proof.
  induction s as [|x s IH]; simpl; [lia|].
  destruct (Nat.eq_dec (Py.count c s) 0) as [H0|Hpos].
  - destruct (Ascii.eqb x c) eqn:E; [|lia]. intros _.
    apply Ascii.eqb_eq in E. subst x. now exists EmptyString, s.
  - intros _. destruct IH as (mp & fn & -> & Hfn); [lia|].
    now exists (String x mp), fn.
Qed.

(** Claim C4.  Resolving a user function name (lines 168-181): a name
    without a dot raises [ValueError] with the fully-qualified-name message
    and makes no call; for a name [modulePath.funcName] whose last component
    has no dot and whose module imports, a missing attribute raises
    [ValueError] with a message naming the function and the module, and a
    present one is returned by [getattr]; every name with a dot is of that
    form.  ([ValueError] is the exception the script raises where the
    specification speaks of a configuration error.) *)
Theorem callback_resolution W (h : History) :
  (forall name, Py.count "." name = 0 ->
     resolve_userFunc W (JStr name) h =
       (h, Raise (ValueError msg_fully_qualified))) /\
  msg_fully_qualified =
    "'userFunc' must be a fully qualified function name. ie. modulename.function_name. eg. pyshepseg.tilingstats.userFuncVariogram" /\
  (forall modulePath funcName module,
     Py.count "." funcName = 0 ->
     w_import_module W h modulePath = Ok module ->
     let h1 := h ++ [Ev_import_module modulePath (Ok module)] in
     (w_hasattr W h1 module funcName = Ok false ->
      resolve_userFunc W (JStr (modulePath ++ "." ++ funcName)) h =
        (h1 ++ [Ev_hasattr module funcName (Ok false)],
         Raise (ValueError ("Cannot find function " ++ funcName ++
                            " in module " ++ modulePath)))) /\
     (forall func,
        let h2 := h1 ++ [Ev_hasattr module funcName (Ok true)] in
        w_hasattr W h1 module funcName = Ok true ->
        w_getattr W h2 module funcName = Ok func ->
        resolve_userFunc W (JStr (modulePath ++ "." ++ funcName)) h =
          (h2 ++ [Ev_getattr module funcName (Ok func)], Ok func))) /\
  (forall name,
     1 <= Py.count "." name ->
     exists modulePath funcName,
       name = (modulePath ++ "." ++ funcName)%string /\
       Py.count "." funcName = 0).
Proof.
  split; [|split; [reflexivity|split; [|intros name; apply cut_at_last_sep]]].
  - intros name Hc. unfold resolve_userFunc, bind, lift, json_split.
    rewrite split_no_sep by assumption. reflexivity.
  - intros mp fn module Hfn Himp h1.
    destruct (split_last "." mp fn Hfn) as (Hlen & Hjoin & Hlast).
    assert (Hlt : (List.length (Py.split "." (mp ++ "." ++ fn)) <? 2)%nat = false)
      by (apply Nat.ltb_ge; exact Hlen).
    assert (Hrun :
      resolve_userFunc W (JStr (mp ++ "." ++ fn)) h =
        (module <- import_module W mp ;;
         found <- hasattr W module fn ;;
         if negb found then raise (ValueError (msg_cannot_find fn mp))
         else getattr W module fn) h).
    { unfold resolve_userFunc at 1, json_split.
      unfold bind at 1, lift. rewrite Hlt.
      change (mp ++ "." ++ fn)%string with (mp ++ String "." fn)%string.
      change (Py.join ".") with (Py.join (String "." EmptyString)).
      now rewrite Hjoin, Hlast. }
    split.
    + intros Hhas. rewrite Hrun.
      unfold bind, import_module, hasattr, call. fold h1.
      rewrite Himp. fold h1. now rewrite Hhas.
    + intros func h2 Hhas Hget. rewrite Hrun.
      unfold bind, import_module, hasattr, getattr, call.
      rewrite Himp. fold h1. rewrite Hhas. cbn [negb]. fold h2.
      now rewrite Hget.
Qed.

(* --------------------------------------------------------------------- *)
(** ** What every call of a run satisfies *)
(* --------------------------------------------------------------------- *)

Lemma tile_cleanup_events W a tf :
  emits_only (main_event a) (tile_cleanup W a tf).
Proof.
  unfold tile_cleanup. destruct (noremove a) eqn:E; [apply emits_ret|].
  eapply emits_weaken; [|apply emits_delete_in_batches].
  intros e (keys & r & ->). simpl. auto.
Qed.

Lemma default_stats_events W a m ds :
  emits_only (main_event a) (default_stats W a m ds).
Proof.
  unfold default_stats. destruct (nogdalstats a) eqn:E; [apply emits_ret|].
  autounfold with calls. emits_tac.
Qed.

Lemma emits_bind_lift {A B} (P : Event -> Prop) (r : result A)
    (f : A -> M B) :
  (forall x, r = Ok x -> emits_only P (f x)) ->
  emits_only P (bind (lift r) f).
Proof.
  intros Hf I h HI Hh. apply wp_bind, wp_lift.
  destruct r as [x|e]; [|exact Hh]. now apply Hf.
Qed.

(** What the unpacking of a locator binds. *)
Lemma unpack2_locator locator b k :
  unpack2 (Py.split ":" locator) = Ok (b, k) ->
  Py.count ":" locator = 1 /\
  b = locator_bucket locator /\ k = locator_key locator.
Proof.
  unfold locator_key, locator_bucket. intros H.
  pose proof (split_length ":" locator) as Hl.
  destruct (Py.split ":" locator) as [|x [|y [|z l]]]; simpl in *;
    inversion H; subst. repeat split. lia.
Qed.

Lemma aggregate_stats_events W a f :
  emits_only (main_event a) (aggregate_stats W a f (make_concurrencyStyle a)).
Proof.
  unfold aggregate_stats. destruct (stats a) as [locator|] eqn:E;
    [|apply emits_ret].
  apply emits_bind_lift. intros [b k] Hu.
  apply unpack2_locator in Hu. destruct Hu as (Hc & -> & ->).
  autounfold with calls. emits_tac; try split; auto; try congruence.
  - right. exists locator. auto.
  - left. congruence.
Qed.

Lemma spatial_stats_events W a f :
  emits_only (main_event a) (spatial_stats W a f (make_concurrencyStyle a)).
Proof.
  unfold spatial_stats, resolve_userFunc.
  destruct (spatialstats a) as [locator|] eqn:E; [|apply emits_ret].
  apply emits_bind_lift. intros [b k] Hu.
  apply unpack2_locator in Hu. destruct Hu as (Hc & -> & ->).
  autounfold with calls. emits_tac; try split; auto; try congruence.
  - right. exists locator. auto.
  - right. congruence.
Qed.

Lemma final_cleanup_events W a k1 k2 :
  emits_only (main_event a) (final_cleanup W a k1 k2).
Proof.
  unfold final_cleanup. destruct (noremove a) eqn:E; [apply emits_ret|].
  autounfold with calls. emits_tac.
Qed.

Lemma emits_main W a : emits_only (main_event a) (main W a).
Proof.
  unfold main.
  repeat first
    [ apply tile_cleanup_events | apply default_stats_events
    | apply aggregate_stats_events | apply spatial_stats_events
    | apply final_cleanup_events
    | apply emits_bind; [| intros ?]
    | match goal with
      | |- emits_only _ (match ?x with _ => _ end) => destruct x
      end
    | apply emits_emit; simpl; auto
    | progress autounfold with calls
    | apply emits_call; intros ?; simpl; auto ].
Qed.

Lemma stable_Forall (P : Event -> Prop) : stable (Forall P) P.
Proof. intros h e Hh He. apply Forall_app. auto. Qed.

Lemma main_events W a : Forall (main_event a) (trace_of (main W a)).
Proof.
  pose proof (emits_main W a (Forall (main_event a)) []
                (stable_Forall _) (Forall_nil _)) as H.
  apply wp_run in H. unfold trace_of.
  destruct (snd (main W a [])); exact H.
Qed.

(* --------------------------------------------------------------------- *)
(** ** Every run follows the protocol *)
(* --------------------------------------------------------------------- *)

Lemma protocol_run_app a p t1 t2 :
  protocol_run a p (t1 ++ t2) =
  match protocol_run a p t1 with
  | Some p' => protocol_run a p' t2
  | None => None
  end.
Proof.
  revert p. induction t1 as [|e t1 IH]; intros p; simpl; [reflexivity|].
  destruct (protocol_step a p e); auto.
Qed.

Lemma in_phase_snoc a p p' h e :
  in_phase a p h -> protocol_step a p e = Some p' -> in_phase a p' (h ++ [e]).
Proof.
  unfold in_phase. intros Hh He.
  rewrite protocol_run_app, Hh. simpl. now rewrite He.
Qed.

Lemma stable_phase a p (P : Event -> Prop) :
  (forall e, P e -> protocol_step a p e = Some p) ->
  stable (in_phase a p) P.
Proof. intros HP h e Hh He. eapply in_phase_snoc; eauto. Qed.

Section Protocol.
Context (W : World) (a : Cmdargs).

Lemma ends_well_intro p h : in_phase a p h -> final_ok p -> (ends_well a) h.
Proof. intros; exists p; auto. Qed.

(** The batching loop walks the [Holding] phase down to no keys left. *)
Lemma delete_in_batches_phase ds m g objs : forall h,
  in_phase a (Holding ds m objs g) h ->
  wp (delete_in_batches W a objs)
     (fun _ h' => in_phase a (Holding ds m [] g) h')
     (fun _ h' => in_phase a Failed h') h.
Proof.
  remember (List.length objs) as n eqn:Hn. revert objs Hn.
  induction n as [n IH] using lt_wf_ind. intros objs Hn h Hh.
  destruct objs as [|o objs'].
  - rewrite delete_in_batches_nil. now apply wp_ret.
  - unfold wp. rewrite delete_in_batches_step by discriminate.
    apply wp_bind, wp_call.
    assert (Hstep : forall r,
      protocol_step a (Holding ds m (o :: objs') g)
        (Ev_delete_objects (bucket a) (firstn batch_limit (o :: objs')) r) =
      Some (match r with
            | Ok _ => Holding ds m (skipn batch_limit (o :: objs')) g
            | Raise _ => Failed
            end)).
    { intros r. cbn [protocol_step].
      destruct (string_dec (bucket a) (bucket a)); [|congruence].
      destruct (list_eq_dec string_dec _ _); [|congruence]. reflexivity. }
    destruct (w_delete_objects W h (bucket a) _) as [u|e].
    + eapply IH; [| reflexivity |].
      * subst n. apply skipn_batch_shorter. discriminate.
      * eapply in_phase_snoc; [exact Hh|]. apply Hstep.
    + eapply in_phase_snoc; [exact Hh|]. apply Hstep.
Qed.

Lemma tile_cleanup_phase ds m tf g h :
  in_phase a (Holding ds m (if noremove a then []
                            else tile_objs (tileprefix a) tf) g) h ->
  wp (tile_cleanup W a tf)
     (fun _ h' => in_phase a (Holding ds m [] g) h')
     (fun _ h' => in_phase a Failed h') h.
Proof.
  unfold tile_cleanup. destruct (noremove a); cbn [negb]; intros Hh.
  - now apply wp_ret.
  - now apply delete_in_batches_phase.
Qed.

Lemma default_stats_done_skipped m ds :
  nogdalstats a = true -> default_stats_done a m ds [] = true.
Proof. intros H. unfold default_stats_done. now rewrite H. Qed.

Lemma default_stats_done_calls m ds band rat histIdx hist :
  nogdalstats a = false ->
  default_stats_done a m ds (default_stats_calls m ds band rat histIdx hist)
  = true.
Proof.
  intros H. unfold default_stats_done, default_stats_calls. rewrite H.
  rewrite !Nat.eqb_refl, !Z.eqb_refl. unfold dec_bool.
  destruct (list_eq_dec Z.eq_dec hist hist); [reflexivity|congruence].
Qed.

(** The default statistics stage makes its seven calls in order, or fails. *)
Lemma default_stats_phase ds m h :
  in_phase a (Holding ds m [] []) h ->
  wp (default_stats W a m ds)
     (fun _ h' => exists g, in_phase a (Holding ds m [] g) h' /\
                            default_stats_done a m ds g = true)
     (fun _ h' => in_phase a Failed h') h.
Proof.
  intros Hh. unfold default_stats.
  destruct (nogdalstats a) eqn:Hflag; cbn [negb].
  - apply wp_ret. exists []. split; [exact Hh|].
    now apply default_stats_done_skipped.
  - autounfold with calls.
    apply wp_bind, wp_call.
    destruct (w_GetRasterBand W h ds 1) as [band|e];
      [|eapply in_phase_snoc; [exact Hh|reflexivity]].
    pose proof (in_phase_snoc a _ _ h _ Hh
                  (eq_refl : protocol_step a _ (Ev_GetRasterBand ds 1 (Ok band)) = _)) as H1.
    cbn [app] in H1. revert H1. generalize (h ++ [Ev_GetRasterBand ds 1 (Ok band)]).
    clear h Hh. intros h Hh.
    apply wp_bind, wp_call.
    destruct (w_GetDefaultRAT W h band) as [rat|e];
      [|eapply in_phase_snoc; [exact Hh|reflexivity]].
    pose proof (in_phase_snoc a _ _ h _ Hh
                  (eq_refl : protocol_step a _ (Ev_GetDefaultRAT band (Ok rat)) = _)) as H1.
    cbn [app] in H1. revert H1. generalize (h ++ [Ev_GetDefaultRAT band (Ok rat)]).
    clear h Hh. intros h Hh.
    apply wp_bind, wp_call.
    destruct (w_GetColOfUsage_PixelCount W h rat) as [histIdx|e];
      [|eapply in_phase_snoc; [exact Hh|reflexivity]].
    pose proof (in_phase_snoc a _ _ h _ Hh
                  (eq_refl : protocol_step a _ (Ev_GetColOfUsage_PixelCount rat (Ok histIdx)) = _)) as H1.
    cbn [app] in H1. revert H1. generalize (h ++ [Ev_GetColOfUsage_PixelCount rat (Ok histIdx)]).
    clear h Hh. intros h Hh.
    apply wp_bind, wp_call.
    destruct (w_ReadAsArray W h rat histIdx) as [hist|e];
      [|eapply in_phase_snoc; [exact Hh|reflexivity]].
    pose proof (in_phase_snoc a _ _ h _ Hh
                  (eq_refl : protocol_step a _ (Ev_ReadAsArray rat histIdx (Ok hist)) = _)) as H1.
    cbn [app] in H1. revert H1. generalize (h ++ [Ev_ReadAsArray rat histIdx (Ok hist)]).
    clear h Hh. intros h Hh.
    apply wp_bind, wp_call.
    destruct (w_estimateStatsFromHisto W h band hist) as [[]|e];
      [|eapply in_phase_snoc; [exact Hh|reflexivity]].
    pose proof (in_phase_snoc a _ _ h _ Hh
                  (eq_refl : protocol_step a _ (Ev_estimateStatsFromHisto band hist (Ok tt)) = _)) as H1.
    cbn [app] in H1. revert H1. generalize (h ++ [Ev_estimateStatsFromHisto band hist (Ok tt)]).
    clear h Hh. intros h Hh.
    apply wp_bind, wp_call.
    destruct (w_writeRandomColourTable W h band (m + 1)) as [[]|e];
      [|eapply in_phase_snoc; [exact Hh|reflexivity]].
    pose proof (in_phase_snoc a _ _ h _ Hh
                  (eq_refl : protocol_step a _ (Ev_writeRandomColourTable band (m + 1) (Ok tt)) = _)) as H1.
    cbn [app] in H1. revert H1. generalize (h ++ [Ev_writeRandomColourTable band (m + 1) (Ok tt)]).
    clear h Hh. intros h Hh.
    apply wp_call.
    destruct (w_addOverviews W h ds) as [[]|e];
      [|eapply in_phase_snoc; [exact Hh|reflexivity]].
    eexists. split; [eapply in_phase_snoc; [exact Hh|reflexivity]|].
    now apply (default_stats_done_calls m ds band rat histIdx hist).
Qed.

Lemma stable_early : stable (in_phase a Early) is_early.
Proof.
  apply stable_phase. intros e He.
  destruct e; simpl in He; try contradiction; reflexivity.
Qed.

Lemma stable_loaded data : stable (in_phase a (Loaded data)) is_opening.
Proof.
  apply stable_phase. intros e He.
  destruct e; simpl in He; try contradiction; reflexivity.
Qed.

Lemma stable_released ds : stable (in_phase a (Released ds)) is_stats_stage.
Proof.
  apply stable_phase. intros e He.
  destruct e; simpl in He; try contradiction; reflexivity.
Qed.

Lemma stable_closing : stable (in_phase a Closing) is_closing.
Proof.
  apply stable_phase. intros e He.
  destruct e; simpl in He; try contradiction; reflexivity.
Qed.

Lemma aggregate_stats_key (I : History -> Prop) f cs h :
  stable I is_stats_stage -> I h ->
  wp (aggregate_stats W a f cs)
     (fun sk h' => I h' /\ sk = option_map locator_key (stats a))
     (fun _ => I) h.
Proof.
  intros HI Hh. unfold aggregate_stats.
  destruct (stats a) as [locator|]; [|now apply wp_ret].
  apply wp_bind, wp_lift.
  destruct (unpack2 (Py.split ":" locator)) as [[b k]|e] eqn:Eu; [|exact Hh].
  apply unpack2_locator in Eu. destruct Eu as (_ & _ & ->).
  repeat (eapply (wp_bind_emits is_stats_stage I);
          [ autounfold with calls; emits_tac | exact HI | eassumption
          | auto | clear h Hh; intros ? h Hh ]).
  now apply wp_ret.
Qed.

Lemma spatial_stats_key (I : History -> Prop) f cs h :
  stable I is_stats_stage -> I h ->
  wp (spatial_stats W a f cs)
     (fun sk h' => I h' /\ sk = option_map locator_key (spatialstats a))
     (fun _ => I) h.
Proof.
  intros HI Hh. unfold spatial_stats.
  destruct (spatialstats a) as [locator|]; [|now apply wp_ret].
  apply wp_bind, wp_lift.
  destruct (unpack2 (Py.split ":" locator)) as [[b k]|e] eqn:Eu; [|exact Hh].
  apply unpack2_locator in Eu. destruct Eu as (_ & _ & ->).
  repeat (eapply (wp_bind_emits is_stats_stage I);
          [ unfold resolve_userFunc; autounfold with calls; emits_tac
          | exact HI | eassumption
          | auto | clear h Hh; intros ? h Hh ]).
  now apply wp_ret.
Qed.

(** With both local variables bound as the stages bind them, the final
    cleanup is one call. *)
Lemma final_cleanup_run h :
  noremove a = false ->
  final_cleanup W a (option_map locator_key (stats a))
                    (option_map locator_key (spatialstats a)) h =
  (h ++ [Ev_delete_objects (bucket a) (final_keys a)
           (w_delete_objects W h (bucket a) (final_keys a))],
   w_delete_objects W h (bucket a) (final_keys a)).
Proof.
  intros Hflag. unfold final_cleanup, final_keys. rewrite Hflag. cbn [negb].
  destruct (stats a), (spatialstats a); reflexivity.
Qed.

Lemma final_cleanup_skipped k1 k2 h :
  noremove a = true -> final_cleanup W a k1 k2 h = (h, Ok tt).
Proof. intros Hflag. unfold final_cleanup. now rewrite Hflag. Qed.

Lemma main_protocol_wp :
  wp (main W a) (fun _ => (ends_well a)) (fun _ => (ends_well a)) [].
Proof.
  assert (H0 : in_phase a Early []) by reflexivity.
  revert H0. generalize (@nil Event). intros h Hh. unfold main.
  do 2 (eapply (wp_bind_emits is_early (in_phase a Early));
        [ autounfold with calls; emits_tac | apply stable_early | eassumption
        | intros; eapply ends_well_intro; eauto; exact I
        | clear h Hh; intros ? h Hh ]).
  (* pickle.load *)
  apply wp_bind. unfold pickle_load. apply wp_call.
  match goal with
  | |- match ?o with _ => _ end => destruct o as [dataFromPickle|e]
  end.
  2: { eapply ends_well_intro; [eapply in_phase_snoc; [exact Hh|reflexivity]|exact I]. }
  match goal with
  | |- wp _ _ _ (h ++ [?ev]) =>
      pose proof (in_phase_snoc a _ _ h ev Hh eq_refl) as Hh';
      revert Hh'; generalize (h ++ [ev]); clear h Hh; intros h Hh
  end.
  do 2 (eapply (wp_bind_emits is_opening (in_phase a (Loaded dataFromPickle)));
        [ autounfold with calls; emits_tac | apply stable_loaded | eassumption
        | intros; eapply ends_well_intro; eauto; exact I
        | clear h Hh; intros ? h Hh ]).
  (* finalize *)
  apply wp_bind. unfold doTiledShepherdSegmentation_finalize. apply wp_call.
  match goal with
  | |- match ?o with _ => _ end =>
      destruct o as [[[maxSegId hasEmpty] localDs]|e]
  end.
  2: { eapply ends_well_intro.
       - eapply in_phase_snoc; [exact Hh|]. cbn [protocol_step].
         destruct (list_eq_dec _ _ _); [|congruence].
         destruct (Nat.eq_dec _ _); [|congruence]. reflexivity.
       - exact I. }
  match goal with
  | |- wp _ _ _ (h ++ [?ev]) =>
      assert (Hh' : in_phase a
                (Holding localDs maxSegId
                   (if noremove a then []
                    else tile_objs (tileprefix a)
                           (build_tileFilenames (bucket a) (tileprefix a)
                              (colRowList dataFromPickle))) []) (h ++ [ev]))
        by (eapply in_phase_snoc; [exact Hh|]; cbn [protocol_step];
            destruct (list_eq_dec _ _ _); [|congruence];
            destruct (Nat.eq_dec _ _); [|congruence]; reflexivity);
      revert Hh'; generalize (h ++ [ev]); clear h Hh; intros h Hh
  end.
  (* tile cleanup *)
  apply wp_bind. eapply wp_mono; [apply tile_cleanup_phase; exact Hh | |].
  2: { intros e h' Hh'. cbv beta in Hh'. eapply ends_well_intro; [exact Hh'|exact I]. }
  clear h Hh. intros ? h Hh. cbv beta in Hh.
  (* default statistics *)
  apply wp_bind. eapply wp_mono; [apply default_stats_phase; exact Hh | |].
  2: { intros e h' Hh'. cbv beta in Hh'. eapply ends_well_intro; [exact Hh'|exact I]. }
  clear h Hh. intros ? h (g & Hh & Hdone).
  (* del localDs *)
  apply wp_bind, wp_emit.
  assert (Hh' : in_phase a (Released localDs) (h ++ [Ev_del_localDs localDs])).
  { eapply in_phase_snoc; [exact Hh|]. cbn [protocol_step].
    destruct (Nat.eq_dec localDs localDs); [|congruence].
    now rewrite Hdone. }
  revert Hh'. generalize (h ++ [Ev_del_localDs localDs]).
  clear h Hh g Hdone. intros h Hh.
  (* statistics *)
  apply wp_bind. eapply wp_mono;
    [ apply (aggregate_stats_key (in_phase a (Released localDs)));
      [apply stable_released | exact Hh] | |].
  2: { intros e h' Hh'. cbv beta in Hh'. eapply ends_well_intro; [exact Hh'|exact I]. }
  clear h Hh. intros statsKey h [Hh ->].
  apply wp_bind. eapply wp_mono;
    [ apply (spatial_stats_key (in_phase a (Released localDs)));
      [apply stable_released | exact Hh] | |].
  2: { intros e h' Hh'. cbv beta in Hh'. eapply ends_well_intro; [exact Hh'|exact I]. }
  clear h Hh. intros spatialstatsKey h [Hh ->].
  (* upload *)
  apply wp_bind. unfold s3_upload_file. apply wp_call.
  match goal with
  | |- match ?o with _ => _ end => destruct o as [u|e]
  end.
  2: { eapply ends_well_intro; [eapply in_phase_snoc; [exact Hh|reflexivity]|exact I]. }
  match goal with
  | |- wp _ _ _ (h ++ [?ev]) =>
      assert (Hh' : in_phase a Published (h ++ [ev]))
        by (eapply in_phase_snoc; [exact Hh|reflexivity]);
      revert Hh'; generalize (h ++ [ev]); clear h Hh; intros h Hh
  end.
  (* final cleanup, then the closing calls *)
  assert (Hclosing : forall h,
    in_phase a Closing h ->
    wp (maxMem <- getrusage_maxrss W ;; print W [JStr "Max Mem Usage"; JNum maxMem])
       (fun _ => (ends_well a)) (fun _ => (ends_well a)) h).
  { clear. intros h Hh.
    eapply (wp_bind_emits is_closing (in_phase a Closing));
      [ autounfold with calls; emits_tac | apply stable_closing | exact Hh
      | intros; eapply ends_well_intro; eauto; exact I
      | clear h Hh; intros ? h Hh ].
    match goal with
    | |- wp ?m _ _ _ =>
        assert (Hp : emits_only is_closing m)
          by (autounfold with calls; emits_tac)
    end.
    eapply wp_mono; [apply (Hp (in_phase a Closing) h stable_closing Hh) | |];
      intros ? h' Hh'; cbv beta in Hh';
      (eapply ends_well_intro; [exact Hh'|exact I]). }
  apply wp_bind. destruct (noremove a) eqn:Hflag.
  - unfold wp at 1. rewrite final_cleanup_skipped by assumption.
    apply wp_bind. unfold shutil_rmtree. apply wp_call.
    assert (Hh' : forall p r, in_phase a Closing (h ++ [Ev_rmtree p r])).
    { intros p r. eapply in_phase_snoc; [exact Hh|].
      cbn [protocol_step]. now rewrite Hflag. }
    match goal with
    | |- match ?o with _ => _ end => destruct o as [u'|e]
    end.
    + apply Hclosing, Hh'.
    + eapply ends_well_intro; [apply Hh'|exact I].
  - unfold wp at 1. rewrite final_cleanup_run by assumption.
    assert (Hh' : forall r,
      in_phase a (match r with Ok _ => Closing | Raise _ => Failed end)
               (h ++ [Ev_delete_objects (bucket a) (final_keys a) r])).
    { intros r. eapply in_phase_snoc; [exact Hh|].
      cbn [protocol_step]. rewrite Hflag.
      destruct (string_dec (bucket a) (bucket a)); [|congruence].
      destruct (list_eq_dec string_dec _ _); [|congruence]. reflexivity. }
    specialize (Hh' (w_delete_objects W h (bucket a) (final_keys a))).
    destruct (w_delete_objects W h (bucket a) (final_keys a)) as [u'|e].
    + revert Hh'. generalize (h ++ [Ev_delete_objects (bucket a) (final_keys a) (Ok u')]).
      clear h Hh. intros h Hh.
      eapply (wp_bind_emits is_closing (in_phase a Closing));
        [ autounfold with calls; emits_tac | apply stable_closing | exact Hh
        | intros; eapply ends_well_intro; eauto; exact I
        | intros; now apply Hclosing ].
    + eapply ends_well_intro; [exact Hh'|exact I].
Qed.

End Protocol.

(* --------------------------------------------------------------------- *)
(** ** Handles along the protocol *)
(* --------------------------------------------------------------------- *)

Section HandleFacts.
Context (a : Cmdargs).

Lemma protocol_run_split p pre e post p' :
  protocol_run a p (pre ++ e :: post) = Some p' ->
  exists p1 p2,
    protocol_run a p pre = Some p1 /\
    protocol_step a p1 e = Some p2 /\
    protocol_run a p2 post = Some p'.
Proof.
  rewrite protocol_run_app.
  destruct (protocol_run a p pre) as [p1|]; [|discriminate].
  simpl. destruct (protocol_step a p1 e) as [p2|] eqn:E; [|discriminate].
  intros H. exists p1, p2. auto.
Qed.

Lemma protocol_run_failed t p : protocol_run a Failed t = Some p -> t = [].
Proof. destruct t; [reflexivity|discriminate]. Qed.

Ltac step_cases :=
  repeat match goal with
         | |- context [match ?x with _ => _ end] =>
             lazymatch x with
             | protocol_step _ _ _ => fail
             | _ => destruct x
             end
         end.

Lemma step_effect p e p' :
  protocol_step a p e = Some p' ->
  handle_effect (held_in p) e <= 1 /\
  opened_during e + held_in p <= 1 /\
  (p' <> Failed -> handle_effect (held_in p) e = held_in p').
Proof.
  destruct p as [|data|ds m [|o objs] g|ds| | |]; destruct e;
    cbn [protocol_step gdalstats_result];
    step_cases; intros H; try discriminate H;
    injection H as <-; cbn; repeat split; try lia; try congruence.
Qed.

Lemma held_along t : forall p p',
  protocol_run a p t = Some p' ->
  fold_left handle_effect t (held_in p) <= 1 /\
  (p' <> Failed -> fold_left handle_effect t (held_in p) = held_in p').
Proof.
  induction t as [|e t IH]; intros p p' Hrun; simpl in *.
  - injection Hrun as <-. split; [destruct p; simpl; lia|reflexivity].
  - destruct (protocol_step a p e) as [p1|] eqn:Es; [|discriminate].
    destruct (step_effect _ _ _ Es) as (Hle & _ & Heq).
    destruct p1 eqn:Ep1;
      try (rewrite Heq by discriminate; now apply IH).
    destruct t; [|discriminate]. simpl in Hrun. injection Hrun as <-.
    simpl. split; [exact Hle|congruence].
Qed.

Lemma held_from_early t p :
  protocol_run a Early t = Some p ->
  held_handles t <= 1 /\ (p <> Failed -> held_handles t = held_in p).
Proof. apply (held_along t Early p). Qed.

Lemma reach_released ds t : forall p,
  protocol_run a p t = Some (Released ds) -> released_path ds p t.
Proof.
  induction t as [|e t IH]; intros p Hrun; simpl in Hrun.
  - injection Hrun as ->. reflexivity.
  - destruct (protocol_step a p e) as [p1|] eqn:Es; [|discriminate].
    specialize (IH p1 Hrun).
    destruct p as [|data|ds' m [|o objs] g|ds'| | |]; destruct e;
      cbn [protocol_step gdalstats_result] in Es; try discriminate Es;
      repeat match type of Es with
             | context [match ?x with _ => _ end] => destruct x
             end;
      try discriminate Es; injection Es as <-; cbn [released_path] in *;
      try contradiction.
    all: try (destruct IH as (p1 & fin & p2 & p3 & -> & Hfin);
              eexists (_ :: p1), fin, p2, p3; split; [reflexivity|exact Hfin]).
    all: try (destruct IH as (<- & p2 & p3 & ->);
              first [ eexists [], _, p2, p3; split; reflexivity
                    | split; [reflexivity|];
                      eexists (_ :: p2), p3; reflexivity ]).
    all: try (subst; split; [reflexivity|]; eexists [], t; reflexivity).
    all: try exact IH.
Qed.

Lemma main_protocol W :
  exists p, protocol_run a Early (trace_of (main W a)) = Some p /\ final_ok p.
Proof.
  pose proof (main_protocol_wp W a) as H. apply wp_run in H.
  unfold trace_of. destruct (snd (main W a [])); exact H.
Qed.

Lemma stats_call_phase p e p' :
  is_stats_call e = true -> protocol_step a p e = Some p' ->
  exists ds, p = Released ds.
Proof.
  destruct e; try discriminate; intros _;
    destruct p as [|data|ds m [|o objs] g|ds| | |];
    cbn [protocol_step gdalstats_result]; try discriminate; eauto.
Qed.

End HandleFacts.

(** Claim C1.  In every run, whatever the outside world answers: when a
    statistics engine call ([calcPerSegmentStatsRIOS] or
    [calcPerSegmentSpatialStatsRIOS]) is issued, the script holds no handle
    on the output raster, and the history before the call contains a
    successful finalization returning a handle [ds] followed by
    [del localDs] on that same [ds].  At every call of the run the handles
    held by the script plus the one the called engine opens on the output
    raster number at most one, and so do the handles held at the end. *)
Theorem statistics_after_close W a :
  let t := trace_of (main W a) in
  (forall pre e post,
     t = pre ++ e :: post -> is_stats_call e = true ->
     held_handles pre = 0 /\
     exists p1 fin p2 ds p3,
       pre = p1 ++ fin :: p2 ++ Ev_del_localDs ds :: p3 /\
       finalize_returned fin = Some ds) /\
  (forall pre e post,
     t = pre ++ e :: post -> held_handles pre + opened_during e <= 1) /\
  held_handles t <= 1.
Proof.
  intros t. destruct (main_protocol a W) as (p & Hrun & _). fold t in Hrun.
  split; [|split].
  - intros pre e post Ht He. rewrite Ht in Hrun.
    apply protocol_run_split in Hrun.
    destruct Hrun as (p1 & p2 & Hpre & Hstep & _).
    destruct (stats_call_phase a _ _ _ He Hstep) as [ds ->].
    split.
    + apply held_from_early in Hpre. destruct Hpre as [_ Heq].
      now rewrite Heq by discriminate.
    + apply reach_released in Hpre. cbn [released_path] in Hpre.
      destruct Hpre as (q1 & fin & q2 & q3 & -> & Hfin).
      now exists q1, fin, q2, ds, q3.
  - intros pre e post Ht. rewrite Ht in Hrun.
    apply protocol_run_split in Hrun.
    destruct Hrun as (p1 & p2 & Hpre & Hstep & _).
    destruct (step_effect a _ _ _ Hstep) as (_ & Hopen & _).
    apply held_from_early in Hpre. destruct Hpre as [_ Heq].
    rewrite Heq; [lia|]. intros ->. discriminate Hstep.
  - now apply held_from_early in Hrun.
Qed.

(* --------------------------------------------------------------------- *)
(** ** After the upload *)
(* --------------------------------------------------------------------- *)

Section PublishFacts.
Context (a : Cmdargs).

Lemma closing_run t : forall p,
  protocol_run a Closing t = Some p ->
  p = Closing /\ Forall (fun e => is_delete e = false) t.
Proof.
  induction t as [|e t IH]; intros p Hrun; simpl in Hrun.
  - injection Hrun as <-. auto.
  - destruct e; try discriminate Hrun; cbn [protocol_step] in Hrun;
      destruct (IH _ Hrun); split; auto.
Qed.

Lemma failed_run t p :
  protocol_run a Failed t = Some p -> p = Failed /\ t = [].
Proof. destruct t; simpl; [|discriminate]. intros H; injection H; auto. Qed.

(** After a successful upload the next call is the final cleanup, and no
    other deletion follows it. *)
Lemma after_published post p :
  protocol_run a Published post = Some p -> final_ok p ->
  noremove a = false ->
  exists r rest,
    post = Ev_delete_objects (bucket a) (final_keys a) r :: rest /\
    Forall (fun e => is_delete e = false) rest.
Proof.
  intros Hrun Hfin Hflag. destruct post as [|e rest]; simpl in Hrun.
  - injection Hrun as <-. contradiction.
  - destruct e; try discriminate Hrun; cbn [protocol_step] in Hrun;
      rewrite Hflag in Hrun; try discriminate Hrun.
    destruct (string_dec Bucket (bucket a)) as [->|]; [|discriminate].
    destruct (list_eq_dec string_dec Keys (final_keys a)) as [->|];
      [|discriminate].
    exists r, rest. split; [reflexivity|].
    destruct r.
    + now apply closing_run in Hrun.
    + apply failed_run in Hrun. destruct Hrun as [_ ->]. constructor.
Qed.

Lemma upload_ok_phase p e p' :
  is_upload_ok e = true -> protocol_step a p e = Some p' -> p' = Published.
Proof.
  destruct e; try discriminate. destruct r; try discriminate. intros _.
  destruct p as [|data|ds m [|o objs] g|ds| | |];
    cbn [protocol_step gdalstats_result]; try discriminate; congruence.
Qed.

End PublishFacts.

(** Claim C7.  With [--noremove] unset, what follows a successful upload
    in any run is one [delete_objects] call on the main bucket whose keys
    are the pickle key, then the key of the aggregate statistics document if
    [--stats] was given, then the key of the spatial statistics document if
    [--spatialstats] was given; no other deletion follows.  With the flag
    set, no run contains a deletion at all. *)
Theorem final_cleanup_after_publish W a :
  let t := trace_of (main W a) in
  (noremove a = false ->
   forall pre Filename Bucket Key post,
     t = pre ++ Ev_upload_file Filename Bucket Key (Ok tt) :: post ->
     exists r rest,
       post = Ev_delete_objects (bucket a) (final_keys a) r :: rest /\
       Forall (fun e => is_delete e = false) rest) /\
  (noremove a = true -> Forall (fun e => is_delete e = false) t).
Proof.
  intros t. split.
  - intros Hflag pre f b k post Ht.
    destruct (main_protocol a W) as (p & Hrun & Hfin). fold t in Hrun.
    rewrite Ht in Hrun. apply protocol_run_split in Hrun.
    destruct Hrun as (p1 & p2 & _ & Hstep & Hpost).
    apply upload_ok_phase in Hstep; [|reflexivity]. subst p2.
    eapply after_published; eauto.
  - intros Hflag. pose proof (main_events W a) as Hev. fold t in Hev.
    eapply Forall_impl; [|exact Hev].
    intros e He. destruct e; try reflexivity.
    simpl in He. destruct He as [_ He]. congruence.
Qed.

(* --------------------------------------------------------------------- *)
(** ** Where documents are fetched and deleted *)
(* --------------------------------------------------------------------- *)

Lemma stable_extends (P : Event -> Prop) h :
  stable (fun h' => exists t, h' = h ++ t /\ Forall P t) P.
Proof.
  intros h' e (t & -> & Ht) He. exists (t ++ [e]).
  rewrite List.app_assoc. split; [reflexivity|]. apply Forall_app. auto.
Qed.

(** A program that emits only [P]-events extends the history by a list of
    [P]-events. *)
Lemma emits_extends {A} (P : Event -> Prop) (m : M A) h :
  emits_only P m -> exists t, fst (m h) = h ++ t /\ Forall P t.
Proof.
  intros Hm.
  pose proof (Hm _ h (stable_extends P h)
                (ex_intro _ [] (conj (eq_sym (List.app_nil_r h)) (Forall_nil P))))
    as H.
  apply wp_run in H. destruct (snd (m h)); exact H.
Qed.

Lemma locator_cut b k :
  Py.count ":" b = 0 -> Py.count ":" k = 0 ->
  Py.split ":" (b ++ ":" ++ k) = [b; k] /\
  locator_bucket (b ++ ":" ++ k) = b /\
  locator_key (b ++ ":" ++ k) = k.
Proof.
  intros Hb Hk. unfold locator_bucket, locator_key.
  change (b ++ ":" ++ k)%string with (b ++ String ":" k)%string.
  rewrite (split_cut ":" b k Hb Hk). auto.
Qed.

Section StageDownloads.
Context (W : World) (a : Cmdargs).

Lemma aggregate_stats_download b k f cs h :
  Py.count ":" b = 0 -> Py.count ":" k = 0 ->
  stats a = Some (b ++ ":" ++ k)%string ->
  exists rest,
    fst (aggregate_stats W a f cs h) =
    h ++ Ev_download_fileobj b k (w_download_fileobj W h b k) :: rest.
Proof.
  intros Hb Hk Hs. unfold aggregate_stats. rewrite Hs.
  destruct (locator_cut b k Hb Hk) as (-> & _ & _).
  unfold bind at 1. cbn [lift unpack2].
  unfold bind at 1, s3_download_fileobj, call.
  destruct (w_download_fileobj W h b k) as [fileobj|e].
  - match goal with
    | |- exists rest, fst (?m ?h') = _ =>
        destruct (emits_extends (fun _ => True) m h') as (t & Ht & _)
    end.
    { autounfold with calls. emits_tac. }
    exists t. rewrite Ht, <- List.app_assoc. reflexivity.
  - exists []. reflexivity.
Qed.

Lemma spatial_stats_download b k f cs h :
  Py.count ":" b = 0 -> Py.count ":" k = 0 ->
  spatialstats a = Some (b ++ ":" ++ k)%string ->
  exists rest,
    fst (spatial_stats W a f cs h) =
    h ++ Ev_download_fileobj b k (w_download_fileobj W h b k) :: rest.
Proof.
  intros Hb Hk Hs. unfold spatial_stats. rewrite Hs.
  destruct (locator_cut b k Hb Hk) as (-> & _ & _).
  unfold bind at 1. cbn [lift unpack2].
  unfold bind at 1, s3_download_fileobj, call.
  destruct (w_download_fileobj W h b k) as [fileobj|e].
  - match goal with
    | |- exists rest, fst (?m ?h') = _ =>
        destruct (emits_extends (fun _ => True) m h') as (t & Ht & _)
    end.
    { unfold resolve_userFunc. autounfold with calls. emits_tac. }
    exists t. rewrite Ht, <- List.app_assoc. reflexivity.
  - exists []. reflexivity.
Qed.
End StageDownloads.

(** Claim C9.  For a locator ["b:k"] given as [--stats] or
    [--spatialstats]: the stage downloads the document from bucket [b], key
    [k] (its first call); every download of a run is either the pickle from
    the main bucket or a statistics document from the bucket its locator
    names; every deletion of a run is issued against the main bucket; and
    the final cleanup after a successful upload deletes key [k] from the
    main bucket, whether or not [b] is the main bucket. *)
Theorem statistics_document_buckets W a b k :
  Py.count ":" b = 0 -> Py.count ":" k = 0 ->
  let locator := (b ++ ":" ++ k)%string in
  let t := trace_of (main W a) in
  (stats a = Some locator ->
   forall f cs h, exists rest,
     fst (aggregate_stats W a f cs h) =
     h ++ Ev_download_fileobj b k (w_download_fileobj W h b k) :: rest) /\
  (spatialstats a = Some locator ->
   forall f cs h, exists rest,
     fst (spatial_stats W a f cs h) =
     h ++ Ev_download_fileobj b k (w_download_fileobj W h b k) :: rest) /\
  Forall (fun e =>
            match e with
            | Ev_download_fileobj Bucket Key _ =>
                (Bucket = bucket a /\ Key = pickle a) \/
                (exists l, (stats a = Some l \/ spatialstats a = Some l) /\
                           Bucket = locator_bucket l /\ Key = locator_key l)
            | Ev_delete_objects Bucket _ _ => Bucket = bucket a
            | _ => True
            end) t /\
  locator_bucket locator = b /\ locator_key locator = k /\
  (stats a = Some locator \/ spatialstats a = Some locator ->
   noremove a = false ->
   forall pre Filename Bucket Key post,
     t = pre ++ Ev_upload_file Filename Bucket Key (Ok tt) :: post ->
     exists keys r rest,
       post = Ev_delete_objects (bucket a) keys r :: rest /\ In k keys).
Proof.
  intros Hb Hk locator t.
  destruct (locator_cut b k Hb Hk) as (_ & Hlb & Hlk).
  split; [|split; [|split; [|split; [exact Hlb|split; [exact Hlk|]]]]].
  - intros Hs f cs h. now apply aggregate_stats_download.
  - intros Hs f cs h. now apply spatial_stats_download.
  - eapply Forall_impl; [|apply main_events].
    intros e He. destruct e; try exact I; simpl in He.
    + destruct He as [He|(l & Hl & _ & H1 & H2)]; [now left|].
      right. exists l. auto.
    + tauto.
  - intros Hs Hflag pre F B K post Ht.
    destruct (main_protocol a W) as (p & Hrun & Hfin). fold t in Hrun.
    rewrite Ht in Hrun. apply protocol_run_split in Hrun.
    destruct Hrun as (p1 & p2 & _ & Hstep & Hpost).
    apply upload_ok_phase in Hstep; [|reflexivity]. subst p2.
    destruct (after_published a post p Hpost Hfin Hflag) as (r & rest & -> & _).
    exists (final_keys a), r, rest. split; [reflexivity|].
    unfold final_keys. fold locator in Hlk.
    destruct Hs as [Hs|Hs]; rewrite Hs; cbn [optional_key]; rewrite Hlk;
      apply in_or_app; right; apply in_or_app; [left|right]; now left.
Qed.

(* --------------------------------------------------------------------- *)
(** ** From the pickle to the tile deletions *)
(* --------------------------------------------------------------------- *)

Section CleanupFacts.
Context (a : Cmdargs).

Ltac step_inv H :=
  cbn [protocol_step gdalstats_result] in H; try discriminate H;
  repeat match type of H with
         | context [match ?x with _ => _ end] => destruct x
         end;
  try discriminate H; injection H as <-.

Lemma step_rank p e p' :
  protocol_step a p e = Some p' ->
  phase_rank p <= phase_rank p' /\
  (forall data data', p = Loaded data -> p' = Loaded data' -> data' = data).
Proof.
  intros H.
  destruct p as [|data|ds m [|o objs] g|ds| | |]; destruct e; step_inv H;
    cbn; split; try lia; congruence.
Qed.

Lemma run_rank t : forall p p',
  protocol_run a p t = Some p' -> phase_rank p <= phase_rank p'.
Proof.
  induction t as [|e t IH]; intros p p' Hrun; simpl in Hrun.
  - injection Hrun as <-. lia.
  - destruct (protocol_step a p e) as [p1|] eqn:Es; [|discriminate].
    apply step_rank in Es. apply IH in Hrun. lia.
Qed.

Lemma loaded_stays t : forall data data',
  protocol_run a (Loaded data) t = Some (Loaded data') -> data' = data.
Proof.
  induction t as [|e t IH]; intros data data' Hrun; cbn [protocol_run] in Hrun.
  - congruence.
  - destruct (protocol_step a (Loaded data) e) as [p1|] eqn:Es; [|discriminate].
    pose proof (run_rank _ _ _ Hrun) as Hr.
    destruct (step_rank _ _ _ Es) as [Hr1 Hsame].
    destruct p1; simpl in Hr, Hr1; try lia.
    rewrite (Hsame _ _ eq_refl eq_refl) in Hrun. eauto.
Qed.

(** While tile keys are left, the next call deletes the next batch. *)
Lemma holding_next ds m o objs g post p :
  protocol_run a (Holding ds m (o :: objs) g) post = Some p -> final_ok p ->
  exists r rest,
    post = Ev_delete_objects (bucket a) (firstn batch_limit (o :: objs)) r
             :: rest /\
    protocol_run a
      (match r with
       | Ok _ => Holding ds m (skipn batch_limit (o :: objs)) g
       | Raise _ => Failed
       end) rest = Some p.
Proof.
  intros Hrun Hfin. destruct post as [|e rest]; cbn [protocol_run] in Hrun.
  - injection Hrun as <-. discriminate Hfin.
  - destruct e; try discriminate Hrun. cbn [protocol_step] in Hrun.
    destruct (string_dec Bucket (bucket a)) as [->|]; [|discriminate].
    destruct (list_eq_dec string_dec Keys _) as [->|]; [|discriminate].
    eauto.
Qed.

Lemma keys_done_run t : forall p p',
  keys_done p -> protocol_run a p t = Some p' ->
  keys_done p' /\
  (p' = Published -> p = Published \/ Exists (fun e => is_upload_ok e = true) t).
Proof.
  induction t as [|e t IH]; intros p p' Hp Hrun; simpl in Hrun.
  - injection Hrun as <-. auto.
  - destruct (protocol_step a p e) as [p1|] eqn:Es; [|discriminate].
    assert (keys_done p1 /\ (p1 = Published -> is_upload_ok e = true))
      as [Hp1 Hup].
    { destruct p as [|data|ds m [|o objs] g|ds| | |]; try contradiction;
        destruct e; step_inv Es; cbn; split; auto; discriminate. }
    destruct (IH _ _ Hp1 Hrun) as [Hp' Hpub]. split; [exact Hp'|].
    intros Heq. right. destruct (Hpub Heq) as [->|Hex].
    + apply Exists_cons_hd. now apply Hup.
    + now apply Exists_cons_tl.
Qed.

(** Once the tile keys are gone, a deletion can only be the final cleanup,
    after a successful upload. *)
Lemma later_deletes p t p' :
  keys_done p -> p <> Published -> protocol_run a p t = Some p' ->
  forall q1 e q2, t = q1 ++ e :: q2 -> is_delete e = true ->
                  Exists (fun e => is_upload_ok e = true) q1.
Proof.
  intros Hp Hnp Hrun q1 e q2 -> He.
  apply protocol_run_split in Hrun.
  destruct Hrun as (p1 & p2 & Hq1 & Hstep & _).
  destruct (keys_done_run _ _ _ Hp Hq1) as [Hp1 Hpub].
  assert (p1 = Published) as ->.
  { destruct e; try discriminate He.
    destruct p1 as [|data|ds m [|o objs] g|ds| | |]; try contradiction;
      cbn [protocol_step gdalstats_result] in Hstep; try discriminate Hstep.
    reflexivity. }
  destruct (Hpub eq_refl); [contradiction|assumption].
Qed.

Lemma pickle_load_phase d data p p' :
  protocol_step a p (Ev_pickle_load d (Ok data)) = Some p' ->
  p' = Loaded data.
Proof.
  destruct p as [|data0|ds m [|o objs] g|ds| | |];
    cbn [protocol_step gdalstats_result]; try discriminate; congruence.
Qed.

Lemma finalize_phase fin m ds p p' :
  finalize_result fin = Some (m, ds) ->
  protocol_step a p fin = Some p' ->
  exists data,
    p = Loaded data /\
    p' = Holding ds m
           (if noremove a then []
            else tile_objs (tileprefix a)
                   (build_tileFilenames (bucket a) (tileprefix a)
                                        (colRowList data))) [].
Proof.
  destruct fin; try discriminate. destruct r as [[[m' he] ds']|]; try discriminate.
  simpl. intros H; injection H as -> ->.
  destruct p as [|data0|ds0 m0 [|o objs] g|ds0| | |];
    cbn [protocol_step gdalstats_result]; try discriminate.
  destruct (list_eq_dec _ _ _) as [->|]; [|discriminate].
  destruct (Nat.eq_dec _ _); [|discriminate].
  intros H; injection H as <-. eauto.
Qed.

End CleanupFacts.

(** Claim C3.  With tile prefix ["run1"], [--noremove] unset and
    coordinates [(0,0), (0,1), (1,0), (1,1)]: the keys computed by the
    format expression are ["run1_0_0.tif"], ["run1_0_1.tif"],
    ["run1_1_0.tif"], ["run1_1_1.tif"] (prefix, "_", column, "_", row, ".",
    "tif"); the dict maps each coordinate to ["/vsis3/" + bucket + "/" + key];
    tile cleanup is one [delete_objects] call with exactly those four keys;
    and in a whole run whose unpickled state has these coordinates, that call
    is the one right after a successful finalization, any later deletion
    coming only after a successful upload. *)
Theorem scenario_four_tiles W a :
  tileprefix a = "run1" -> noremove a = false ->
  let coords := [(0, 0); (0, 1); (1, 0); (1, 1)]%Z in
  let keys := ["run1_0_0.tif"; "run1_0_1.tif"; "run1_1_0.tif"; "run1_1_1.tif"] in
  let tileFilenames := build_tileFilenames (bucket a) (tileprefix a) coords in
  map (fun '(col, row) => tile_key (tileprefix a) col row) coords = keys /\
  (forall prefix col row,
     tile_key prefix col row =
     (prefix ++ "_" ++ Py.str_of_int col ++ "_" ++ Py.str_of_int row
             ++ "." ++ "tif")%string) /\
  tileFilenames =
    map (fun '(cr, key) => (cr, ("/vsis3/" ++ bucket a ++ "/" ++ key)%string))
        (combine coords keys) /\
  (forall h,
     tile_cleanup W a tileFilenames h =
     (h ++ [Ev_delete_objects (bucket a) keys
              (w_delete_objects W h (bucket a) keys)],
      w_delete_objects W h (bucket a) keys)) /\
  (forall pre d data mid fin post,
     trace_of (main W a) =
       pre ++ Ev_pickle_load d (Ok data) :: mid ++ fin :: post ->
     colRowList data = coords ->
     finalize_result fin <> None ->
     exists r rest,
       post = Ev_delete_objects (bucket a) keys r :: rest /\
       forall q1 e q2,
         rest = q1 ++ e :: q2 -> is_delete e = true ->
         Exists (fun e => is_upload_ok e = true) q1).
Proof.
  intros Hprefix Hflag coords keys tileFilenames.
  assert (Hobjs : tile_objs (tileprefix a) tileFilenames = keys)
    by (unfold tileFilenames; rewrite Hprefix; reflexivity).
  split; [rewrite Hprefix; reflexivity|].
  split; [reflexivity|].
  split; [unfold tileFilenames; rewrite Hprefix; reflexivity|].
  split.
  - intros h. unfold tile_cleanup. rewrite Hflag, Hobjs. cbn [negb].
    unfold keys. rewrite delete_in_batches_step by discriminate.
    unfold bind, s3_delete_objects, call.
    change (firstn batch_limit ?l) with l.
    change (skipn batch_limit ["run1_0_0.tif"; "run1_0_1.tif"; "run1_1_0.tif"; "run1_1_1.tif"])
      with (@nil string).
    destruct (w_delete_objects W h (bucket a) _) as [a0|]; [|reflexivity].
    destruct a0. now rewrite delete_in_batches_nil.
  - intros pre d data mid fin post Ht Hdata Hfin.
    destruct (main_protocol a W) as (p & Hrun & Hok).
    rewrite Ht in Hrun. apply protocol_run_split in Hrun.
    destruct Hrun as (p1 & p2 & _ & Hstep & Hrun).
    apply pickle_load_phase in Hstep. subst p2.
    apply protocol_run_split in Hrun.
    destruct Hrun as (p3 & p4 & Hmid & Hstep & Hrun).
    destruct (finalize_result fin) as [[m ds]|] eqn:Efin; [|congruence].
    destruct (finalize_phase a _ _ _ _ _ Efin Hstep) as (data' & -> & ->).
    apply loaded_stays in Hmid. subst data'.
    rewrite Hflag, Hdata in Hrun. fold coords tileFilenames in Hrun.
    rewrite Hobjs in Hrun. unfold keys in Hrun.
    destruct (holding_next a _ _ _ _ _ _ _ Hrun Hok) as (r & rest & -> & Hrest).
    change (firstn batch_limit ?l) with l.
    exists r, rest. split; [reflexivity|].
    change (skipn batch_limit ["run1_0_0.tif"; "run1_0_1.tif"; "run1_1_0.tif"; "run1_1_1.tif"])
      with (@nil string) in Hrest.
    eapply later_deletes; [| |exact Hrest]; destruct r; simpl; auto; discriminate.
Qed.

(* --------------------------------------------------------------------- *)
(** ** While the handle is held *)
(* --------------------------------------------------------------------- *)

Section HoldingFacts.
Context (a : Cmdargs).

Ltac step_inv H :=
  cbn [protocol_step gdalstats_result] in H; try discriminate H;
  repeat match type of H with
         | context [match ?x with _ => _ end] => destruct x
         end;
  try discriminate H; injection H as <-.

(** What the history looks like while the handle is held: a successful
    finalization, the tile deletions, then the default statistics calls. *)
Lemma reach_holding t : forall ds m objs g,
  protocol_run a Early t = Some (Holding ds m objs g) ->
  (objs <> [] -> g = []) /\
  exists p1 fin tiles,
    t = p1 ++ fin :: tiles ++ g /\
    finalize_result fin = Some (m, ds) /\
    Forall (fun e => is_delete e = true) tiles.
Proof.
  induction t as [|e t IH] using rev_ind; intros ds m objs g Hrun.
  - discriminate Hrun.
  - rewrite protocol_run_app in Hrun.
    destruct (protocol_run a Early t) as [p0|] eqn:Ht; [|discriminate].
    cbn [protocol_run] in Hrun.
    destruct (protocol_step a p0 e) as [p1|] eqn:Es; [|discriminate].
    injection Hrun as ->.
    destruct p0 as [|data|ds0 m0 [|o objs0] g0|ds0| | |]; destruct e;
      cbn [protocol_step gdalstats_result] in Es; try discriminate Es;
      repeat match type of Es with
             | context [match ?x with _ => _ end] => destruct x
             end;
      try discriminate Es; inversion Es; subst; clear Es.
    all: first
      [ (* the finalization call itself *)
        solve [ split; [reflexivity|];
                eexists t, _, []; split; [now rewrite List.app_nil_r|];
                split; [reflexivity|constructor] ]
      | (* a batch of tile keys *)
        solve [ destruct (IH _ _ _ _ eq_refl)
                  as (Hg & p1 & fin & tiles & -> & Hfin & Htiles);
                rewrite Hg by discriminate; split; [reflexivity|];
                eexists p1, fin, (tiles ++ [_]);
                split; [now rewrite !List.app_nil_r, <- List.app_assoc|];
                split; [exact Hfin|]; apply Forall_app; split;
                [exact Htiles|now constructor] ]
      | (* a call of the default statistics stage *)
        solve [ destruct (IH _ _ _ _ eq_refl)
                  as (_ & p1 & fin & tiles & -> & Hfin & Htiles);
                (split; [congruence|]); exists p1, fin, tiles;
                (split; [now rewrite <- !List.app_assoc, <- List.app_comm_cons,
                             <- List.app_assoc|auto]) ] ].
Qed.

Lemma del_phase ds p p' :
  protocol_step a p (Ev_del_localDs ds) = Some p' ->
  exists m g, p = Holding ds m [] g /\ default_stats_done a m ds g = true.
Proof.
  destruct p as [|data|ds0 m0 [|o objs0] g0|ds0| | |];
    cbn [protocol_step gdalstats_result]; try discriminate.
  destruct (Nat.eq_dec ds ds0) as [->|]; [|discriminate].
  destruct (default_stats_done a m0 ds0 g0) eqn:E; [|discriminate].
  eauto.
Qed.

Lemma default_stats_done_inv m ds g :
  default_stats_done a m ds g = true ->
  (nogdalstats a = true -> g = []) /\
  (nogdalstats a = false ->
   exists band rat histIdx hist,
     g = default_stats_calls m ds band rat histIdx hist).
Proof.
  unfold default_stats_done. destruct (nogdalstats a).
  - destruct g; [|discriminate]. split; [reflexivity|discriminate].
  - intros H. split; [discriminate|]. intros _.
    repeat match type of H with
           | context [match ?x with _ => _ end] =>
               destruct x; try discriminate H
           end.
    repeat match type of H with
           | (_ && _)%bool = true => apply andb_prop in H; destruct H as [H ?]
           end.
    repeat match goal with
           | E : (_ =? _)%nat = true |- _ => apply Nat.eqb_eq in E
           | E : (_ =? _)%Z = true |- _ => apply Z.eqb_eq in E
           | E : dec_bool ?d = true |- _ =>
               unfold dec_bool in E; destruct d; [|discriminate E]; clear E
           end.
    subst. repeat match goal with u : unit |- _ => destruct u end.
    do 4 eexists. reflexivity.
Qed.

End HoldingFacts.

(** Claim C6.  With [--nogdalstats] set the default statistics stage makes
    no call, and no run contains any of its calls.  With the flag unset, a
    stage that returns normally has made exactly [GetRasterBand(1)],
    [GetDefaultRAT], [GetColOfUsage(GFU_PixelCount)], [ReadAsArray], then
    [estimateStatsFromHisto], [writeRandomColourTable] with
    [maxSegId + 1] entries and [addOverviews], in that order; and in a whole
    run these seven calls are what precedes [del localDs], after the
    successful finalization that returned [maxSegId] and the tile
    deletions. *)
Theorem default_raster_statistics W a :
  let t := trace_of (main W a) in
  (nogdalstats a = true ->
   (forall m ds h, default_stats W a m ds h = (h, Ok tt)) /\
   Forall (fun e => gdalstats_result e = None) t) /\
  (nogdalstats a = false ->
   (forall m ds h h',
      default_stats W a m ds h = (h', Ok tt) ->
      exists band rat histIdx hist,
        h' = h ++ default_stats_calls m ds band rat histIdx hist) /\
   (forall pre ds post,
      t = pre ++ Ev_del_localDs ds :: post ->
      exists p1 fin tiles m band rat histIdx hist,
        pre = p1 ++ fin :: tiles ++
              default_stats_calls m ds band rat histIdx hist /\
        finalize_result fin = Some (m, ds) /\
        Forall (fun e => is_delete e = true) tiles)).
Proof.
  intros t. split; intros Hflag; split.
  - intros m ds h. unfold default_stats. now rewrite Hflag.
  - eapply Forall_impl; [|apply main_events].
    intros e He. destruct e; try reflexivity; simpl in He; congruence.
  - intros m ds h h'. unfold default_stats. rewrite Hflag. cbn [negb].
    autounfold with calls. unfold bind, call.
    destruct (w_GetRasterBand W h ds 1) as [band|]; [|discriminate].
    destruct (w_GetDefaultRAT W _ band) as [rat|]; [|discriminate].
    destruct (w_GetColOfUsage_PixelCount W _ rat) as [histIdx|]; [|discriminate].
    destruct (w_ReadAsArray W _ rat histIdx) as [hist|]; [|discriminate].
    destruct (w_estimateStatsFromHisto W _ band hist) as [[]|]; [|discriminate].
    destruct (w_writeRandomColourTable W _ band (m + 1)) as [[]|]; [|discriminate].
    destruct (w_addOverviews W _ ds) as [[]|]; [|discriminate].
    intros H. injection H as <-. exists band, rat, histIdx, hist.
    now rewrite <- !List.app_assoc.
  - intros pre ds post Ht.
    destruct (main_protocol a W) as (p & Hrun & _). fold t in Hrun.
    rewrite Ht in Hrun. apply protocol_run_split in Hrun.
    destruct Hrun as (p1 & p2 & Hpre & Hstep & _).
    apply del_phase in Hstep. destruct Hstep as (m & g & -> & Hdone).
    apply default_stats_done_inv in Hdone. destruct Hdone as [_ Hdone].
    destruct (Hdone Hflag) as (band & rat & histIdx & hist & ->).
    apply reach_holding in Hpre.
    destruct Hpre as (_ & q1 & fin & tiles & -> & Hfin & Htiles).
    now exists q1, fin, tiles, m, band, rat, histIdx, hist.
Qed.

(** Claim C5.  The [ConcurrencyStyle] built at lines 134-143 has the read
    worker count and, when [--readworkerstimeouts] is given, that one value
    in all four timeout fields; when it is not given no timeout field is
    set.  Every statistics engine call of every run is passed that
    object. *)
Theorem concurrency_configuration W a :
  (forall timeout,
     readworkerstimeouts a = Some timeout ->
     make_concurrencyStyle a =
     {| numReadWorkers := statsreadworkers a;
        readBufferPopTimeout := Some timeout;
        readBufferInsertTimeout := Some timeout;
        computeBufferInsertTimeout := Some timeout;
        computeBufferPopTimeout := Some timeout |}) /\
  (readworkerstimeouts a = None ->
   make_concurrencyStyle a =
     {| numReadWorkers := statsreadworkers a;
        readBufferPopTimeout := None;
        readBufferInsertTimeout := None;
        computeBufferInsertTimeout := None;
        computeBufferPopTimeout := None |}) /\
  Forall (fun e =>
            match e with
            | Ev_calcPerSegmentStatsRIOS _ _ _ _ cs _
            | Ev_calcPerSegmentSpatialStatsRIOS _ _ _ _ _ _ cs _ =>
                cs = make_concurrencyStyle a
            | _ => True
            end) (trace_of (main W a)).
Proof.
  split; [|split].
  - intros timeout H. unfold make_concurrencyStyle. now rewrite H.
  - intros H. unfold make_concurrencyStyle. now rewrite H.
  - eapply Forall_impl; [|apply main_events].
    intros e He. destruct e; try exact I; simpl in He; tauto.
Qed.

(* --------------------------------------------------------------------- *)
(** ** Locators that do not parse *)
(* --------------------------------------------------------------------- *)

Lemma unpack2_count (locator : string) :
  (Py.count ":" locator = 1 ->
   exists b k, locator = (b ++ ":" ++ k)%string /\
               Py.count ":" b = 0 /\ Py.count ":" k = 0 /\
               unpack2 (Py.split ":" locator) = Ok (b, k)) /\
  (Py.count ":" locator <> 1 ->
   exists msg, unpack2 (Py.split ":" locator) = Raise (ValueError msg)).
Proof.
  split.
  - intros Hc. destruct (split_one_sep ":" locator Hc) as (b & k & -> & Hs & Hb & Hk).
    exists b, k. rewrite Hs. auto.
  - intros Hc. pose proof (split_length ":" locator) as Hl.
    destruct (Py.split ":" locator) as [|x [|y [|z l]]]; simpl in *;
      try (eexists; reflexivity). lia.
Qed.

Section Parsing.
Context (W : World) (a : Cmdargs).

Lemma aggregate_stats_unparsed locator f cs h :
  stats a = Some locator -> Py.count ":" locator <> 1 ->
  exists msg, aggregate_stats W a f cs h = (h, Raise (ValueError msg)).
Proof.
  intros Hs Hc. destruct (proj2 (unpack2_count locator) Hc) as [msg Hu].
  exists msg. unfold aggregate_stats. rewrite Hs.
  unfold bind at 1, lift. now rewrite Hu.
Qed.

Lemma spatial_stats_unparsed locator f cs h :
  spatialstats a = Some locator -> Py.count ":" locator <> 1 ->
  exists msg, spatial_stats W a f cs h = (h, Raise (ValueError msg)).
Proof.
  intros Hs Hc. destruct (proj2 (unpack2_count locator) Hc) as [msg Hu].
  exists msg. unfold spatial_stats. rewrite Hs.
  unfold bind at 1, lift. now rewrite Hu.
Qed.

Lemma emits_aggregate_event f cs :
  emits_only (aggregate_event a) (aggregate_stats W a f cs).
Proof.
  unfold aggregate_stats. destruct (stats a) as [locator|] eqn:E;
    [|apply emits_ret].
  apply emits_bind_lift. intros [b k] Hu.
  apply unpack2_locator in Hu. destruct Hu as (Hc & -> & ->).
  autounfold with calls. emits_tac. eauto.
Qed.

Ltac quiet P :=
  eapply (wp_bind_emits P (Forall P));
  [ first [ eapply emits_weaken; [|apply emits_tile_cleanup];
            intros []; simpl; tauto
          | eapply emits_weaken; [|apply emits_default_stats];
            intros []; simpl; tauto
          | autounfold with calls; emits_tac ]
  | apply stable_Forall | eassumption | auto | ].

(** A run whose aggregate locator does not parse stops there. *)
Lemma main_unparsed_stats locator :
  stats a = Some locator -> Py.count ":" locator <> 1 ->
  wp (main W a) (fun _ _ => False)
     (fun _ h => Forall (before_statistics a) h) [].
Proof.
  intros Hs Hc. pose proof (Forall_nil (before_statistics a)) as Hh.
  revert Hh. generalize (@nil Event). intros h Hh. unfold main.
  do 5 (quiet (before_statistics a); clear h Hh; intros ? h Hh).
  quiet (before_statistics a). clear h Hh. intros [[maxSegId he] localDs] h Hh.
  do 3 (quiet (before_statistics a); clear h Hh; intros ? h Hh).
  apply wp_bind.
  match goal with
  | |- wp (aggregate_stats W a ?f ?cs) _ _ ?h' =>
      destruct (aggregate_stats_unparsed locator f cs h' Hs Hc) as [msg Hrun];
      unfold wp; rewrite Hrun
  end.
  exact Hh.
Qed.

(** A run whose spatial locator does not parse stops there. *)
Lemma main_unparsed_spatialstats locator :
  spatialstats a = Some locator -> Py.count ":" locator <> 1 ->
  wp (main W a) (fun _ _ => False)
     (fun _ h => Forall (up_to_aggregate a) h) [].
Proof.
  intros Hs Hc. pose proof (Forall_nil (up_to_aggregate a)) as Hh.
  revert Hh. generalize (@nil Event). intros h Hh. unfold main.
  assert (Hleft : forall e, before_statistics a e -> (up_to_aggregate a) e)
    by (intros; now left).
  do 5 (eapply (wp_bind_emits (up_to_aggregate a) (Forall (up_to_aggregate a)));
        [ eapply emits_weaken; [exact Hleft|];
          autounfold with calls; emits_tac
        | apply stable_Forall | eassumption | auto
        | clear h Hh; intros ? h Hh ]).
  eapply (wp_bind_emits (up_to_aggregate a) (Forall (up_to_aggregate a)));
    [ eapply emits_weaken; [exact Hleft|]; autounfold with calls; emits_tac
    | apply stable_Forall | eassumption | auto
    | clear h Hh; intros [[maxSegId he] localDs] h Hh ].
  eapply (wp_bind_emits (up_to_aggregate a) (Forall (up_to_aggregate a)));
    [ eapply emits_weaken; [|apply emits_tile_cleanup];
      intros []; simpl; try tauto; intros _; now left
    | apply stable_Forall | eassumption | auto
    | clear h Hh; intros ? h Hh ].
  eapply (wp_bind_emits (up_to_aggregate a) (Forall (up_to_aggregate a)));
    [ eapply emits_weaken; [|apply emits_default_stats];
      intros []; simpl; try tauto; intros _; now left
    | apply stable_Forall | eassumption | auto
    | clear h Hh; intros ? h Hh ].
  eapply (wp_bind_emits (up_to_aggregate a) (Forall (up_to_aggregate a)));
    [ eapply emits_weaken; [exact Hleft|]; emits_tac
    | apply stable_Forall | eassumption | auto
    | clear h Hh; intros ? h Hh ].
  eapply (wp_bind_emits (up_to_aggregate a) (Forall (up_to_aggregate a)));
    [ eapply emits_weaken; [|apply emits_aggregate_event]; intros; now right
    | apply stable_Forall | eassumption | auto
    | clear h Hh; intros ? h Hh ].
  apply wp_bind.
  match goal with
  | |- wp (spatial_stats W a ?f ?cs) _ _ ?h' =>
      destruct (spatial_stats_unparsed locator f cs h' Hs Hc) as [msg Hrun];
      unfold wp; rewrite Hrun
  end.
  exact Hh.
Qed.

Lemma run_fails {A} (m : M A) (E : exn -> History -> Prop) :
  wp m (fun _ _ => False) E [] ->
  (exists e, outcome_of m = Raise e) /\
  (forall e, outcome_of m = Raise e -> E e (trace_of m)).
Proof.
  unfold wp, outcome_of, trace_of. destruct (m []) as [h [x|e]]; simpl.
  - contradiction.
  - intros H. split; [eauto|]. intros e' He'. injection He' as <-. exact H.
Qed.
End Parsing.

(** Claim C10.  A locator with exactly one colon unpacks into bucket and
    key, and the stage it configures starts by downloading that document.
    A locator with no colon, or with two or more, makes the unpacking raise
    [ValueError]: the stage makes no call at all, the run ends with an
    exception, and its history holds only calls made before the statistics
    stages (for [--stats]) or before them and for the aggregate document
    (for [--spatialstats]); in particular no download of, and no statistics
    call for, that document. *)
Theorem locator_parsing W a locator :
  (Py.count ":" locator = 1 ->
   exists b k,
     locator = (b ++ ":" ++ k)%string /\
     unpack2 (Py.split ":" locator) = Ok (b, k) /\
     (stats a = Some locator ->
      forall f cs h, exists rest,
        fst (aggregate_stats W a f cs h) =
        h ++ Ev_download_fileobj b k (w_download_fileobj W h b k) :: rest) /\
     (spatialstats a = Some locator ->
      forall f cs h, exists rest,
        fst (spatial_stats W a f cs h) =
        h ++ Ev_download_fileobj b k (w_download_fileobj W h b k) :: rest)) /\
  (Py.count ":" locator <> 1 ->
   (exists msg, unpack2 (Py.split ":" locator) = Raise (ValueError msg)) /\
   (stats a = Some locator ->
    (forall f cs h, exists msg,
       aggregate_stats W a f cs h = (h, Raise (ValueError msg))) /\
    (exists e, outcome_of (main W a) = Raise e) /\
    Forall (before_statistics a) (trace_of (main W a))) /\
   (spatialstats a = Some locator ->
    (forall f cs h, exists msg,
       spatial_stats W a f cs h = (h, Raise (ValueError msg))) /\
    (exists e, outcome_of (main W a) = Raise e) /\
    Forall (fun e => before_statistics a e \/ aggregate_event a e)
           (trace_of (main W a)))).
Proof.
  split.
  - intros Hc. destruct (proj1 (unpack2_count locator) Hc)
      as (b & k & -> & Hb & Hk & Hu).
    exists b, k. repeat split; auto.
    + intros Hs f cs h. now apply aggregate_stats_download.
    + intros Hs f cs h. now apply spatial_stats_download.
  - intros Hc. split; [exact (proj2 (unpack2_count locator) Hc)|]. split.
    + intros Hs. split.
      * intros f cs h. now apply (aggregate_stats_unparsed W a locator).
      * destruct (run_fails _ _ (main_unparsed_stats W a locator Hs Hc))
          as [[e He] Htr].
        split; [eauto|]. exact (Htr e He).
    + intros Hs. split.
      * intros f cs h. now apply (spatial_stats_unparsed W a locator).
      * destruct (run_fails _ _ (main_unparsed_spatialstats W a locator Hs Hc))
          as [[e He] Htr].
        split; [eauto|]. exact (Htr e He).
Qed.

(* ===================================================================== *)
(** * The theorems at work on the example runs *)
(* ===================================================================== *)

Lemma example_trace_eq :
  trace_of (main example_world example_cmdargs) = example_trace.
Proof. vm_compute. reflexivity. Qed.

Lemma example_coords_nodup : NoDup example_coords.
Proof.
  unfold example_coords.
  repeat (constructor; [simpl; intuition discriminate|]). constructor.
Qed.

(** In the example run the first statistics call is the nineteenth call;
    no handle is held before it. *)
Lemma statistics_after_close_witness :
  is_stats_call (nth 18 example_trace (Ev_del_localDs 0)) = true /\
  held_handles (firstn 18 example_trace) = 0 /\
  held_handles example_trace <= 1.
Proof.
  destruct (statistics_after_close example_world example_cmdargs)
    as (Hstats & _ & Hheld).
  split; [reflexivity|]. split.
  - refine (proj1 (Hstats (firstn 18 example_trace)
                          (nth 18 example_trace (Ev_del_localDs 0))
                          (skipn 19 example_trace) _ _)).
    + vm_compute. reflexivity.
    + reflexivity.
  - rewrite <- example_trace_eq. exact Hheld.
Defined.

(** 2500 tile keys are deleted in batches of 1000, 1000 and 500. *)
Lemma tile_cleanup_batches_witness :
  noremove example_cmdargs = false /\
  (exists h',
     tile_cleanup example_world example_cmdargs example_many_tiles []
       = (h', Ok tt)) /\
  map (@List.length string)
      (delete_batches
         (fst (tile_cleanup example_world example_cmdargs
                            example_many_tiles [])))
    = [1000; 1000; 500].
Proof.
  split; [reflexivity|].
  pose proof (tile_cleanup_batches example_world example_cmdargs
                example_many_tiles [] eq_refl) as H.
  cbv zeta in H. destruct H as [Hreturns Hshape].
  destruct (Hreturns (fun _ _ => eq_refl)) as [h' Hrun].
  split; [now exists h'|].
  destruct (Hshape h' Hrun) as (t & Ht & _ & _ & _ & _ & _ & _ & H2500).
  rewrite Hrun. cbn [fst app] in *. rewrite Ht. apply H2500.
  vm_compute. reflexivity.
Defined.

(** In the example run the call after the finalization deletes the four
    tiles. *)
Lemma scenario_four_tiles_witness :
  tileprefix example_cmdargs = "run1" /\
  noremove example_cmdargs = false /\
  exists r rest,
    skipn 6 example_trace =
    Ev_delete_objects "segs"
      ["run1_0_0.tif"; "run1_0_1.tif"; "run1_1_0.tif"; "run1_1_1.tif"] r
      :: rest.
Proof.
  split; [reflexivity|]. split; [reflexivity|].
  pose proof (scenario_four_tiles example_world example_cmdargs
                eq_refl eq_refl) as H.
  cbv zeta in H. destruct H as (_ & _ & _ & _ & Hrun).
  destruct (Hrun (firstn 2 example_trace) [Byte.x00]
                 {| colRowList := example_coords; tileInfo := 7 |}
                 (firstn 2 (skipn 3 example_trace))
                 (nth 5 example_trace (Ev_del_localDs 0))
                 (skipn 6 example_trace))
    as (r & rest & Hpost & _).
  - vm_compute. reflexivity.
  - reflexivity.
  - discriminate.
  - exists r, rest. exact Hpost.
Defined.

(** Three names resolved in the example world. *)
Lemma callback_resolution_witness :
  resolve_userFunc example_world (JStr "myfunc") [] =
    ([], Raise (ValueError msg_fully_qualified)) /\
  resolve_userFunc example_world (JStr "mypkg.nofunc") [] =
    ([Ev_import_module "mypkg" (Ok 5); Ev_hasattr 5 "nofunc" (Ok false)],
     Raise (ValueError "Cannot find function nofunc in module mypkg")) /\
  resolve_userFunc example_world (JStr "mypkg.myfunc") [] =
    ([Ev_import_module "mypkg" (Ok 5); Ev_hasattr 5 "myfunc" (Ok true);
      Ev_getattr 5 "myfunc" (Ok 6)], Ok 6).
Proof.
  destruct (callback_resolution example_world []) as (Hnone & _ & Hsome & _).
  split; [apply Hnone; reflexivity|]. split.
  - exact (proj1 (Hsome "mypkg" "nofunc" 5 eq_refl eq_refl) eq_refl).
  - exact (proj2 (Hsome "mypkg" "myfunc" 5 eq_refl eq_refl) 6 eq_refl eq_refl).
Defined.

(** The example run passes its one timeout in all four fields. *)
Lemma concurrency_configuration_witness :
  readworkerstimeouts example_cmdargs = Some 30%Z /\
  make_concurrencyStyle example_cmdargs =
    {| numReadWorkers := 2;
       readBufferPopTimeout := Some 30%Z;
       readBufferInsertTimeout := Some 30%Z;
       computeBufferInsertTimeout := Some 30%Z;
       computeBufferPopTimeout := Some 30%Z |} /\
  readworkerstimeouts example_keep_cmdargs = None /\
  make_concurrencyStyle example_keep_cmdargs =
    {| numReadWorkers := 0;
       readBufferPopTimeout := None;
       readBufferInsertTimeout := None;
       computeBufferInsertTimeout := None;
       computeBufferPopTimeout := None |}.
Proof.
  split; [reflexivity|]. split.
  - exact (proj1 (concurrency_configuration example_world example_cmdargs)
                 30%Z eq_refl).
  - split; [reflexivity|].
    exact (proj1 (proj2 (concurrency_configuration example_world
                           example_keep_cmdargs)) eq_refl).
Defined.

(** In the example run the seven calls precede [del localDs], the fifteenth
    call. *)
Lemma default_raster_statistics_witness :
  nogdalstats example_cmdargs = false /\
  (exists p1 fin tiles m band rat histIdx hist,
     firstn 14 example_trace =
       p1 ++ fin :: tiles ++ default_stats_calls m 2 band rat histIdx hist /\
     finalize_result fin = Some (m, 2)) /\
  nogdalstats example_keep_cmdargs = true /\
  Forall (fun e => gdalstats_result e = None)
         (trace_of (main example_world example_keep_cmdargs)).
Proof.
  split; [reflexivity|]. split.
  - pose proof (default_raster_statistics example_world example_cmdargs) as H.
    cbv zeta in H. destruct H as [_ H]. destruct (H eq_refl) as [_ Hrun].
    destruct (Hrun (firstn 14 example_trace) 2 (skipn 15 example_trace))
      as (p1 & fin & tiles & m & band & rat & histIdx & hist & Hpre & Hfin & _).
    + vm_compute. reflexivity.
    + now exists p1, fin, tiles, m, band, rat, histIdx, hist.
  - split; [reflexivity|].
    pose proof (default_raster_statistics example_world example_keep_cmdargs)
      as H.
    cbv zeta in H. destruct H as [H _]. exact (proj2 (H eq_refl)).
Defined.

(** In the example run the call after the upload deletes the pickle and the
    two documents; the run that keeps its intermediates deletes nothing. *)
Lemma final_cleanup_after_publish_witness :
  noremove example_cmdargs = false /\
  (exists r rest,
     skipn 27 example_trace =
     Ev_delete_objects "segs" ["run1.pkl"; "agg.json"; "spatial.json"] r
       :: rest /\
     Forall (fun e => is_delete e = false) rest) /\
  noremove example_keep_cmdargs = true /\
  Forall (fun e => is_delete e = false)
         (trace_of (main example_world example_keep_cmdargs)).
Proof.
  split; [reflexivity|]. split.
  - pose proof (final_cleanup_after_publish example_world example_cmdargs)
      as H.
    cbv zeta in H. destruct H as [H _].
    apply (H eq_refl (firstn 26 example_trace) "/tmp/tmpab12/segs.kea"
             "segs" "out/segs.kea" (skipn 27 example_trace)).
    vm_compute. reflexivity.
  - split; [reflexivity|].
    pose proof (final_cleanup_after_publish example_world example_keep_cmdargs)
      as H.
    cbv zeta in H. destruct H as [_ H]. exact (H eq_refl).
Defined.

(** The four example coordinates give four distinct keys. *)
Lemma tile_keys_distinct_witness :
  NoDup example_coords /\
  NoDup (map (fun '(col, row) => tile_key "run1" col row) example_coords) /\
  Py.keys (build_tileFilenames "segs" "run1" example_coords) = example_coords.
Proof.
  split; [exact example_coords_nodup|].
  pose proof (tile_keys_distinct "run1" example_coords example_coords_nodup)
    as H.
  cbv zeta in H. destruct H as (_ & Hnd & Hbuild & _).
  split; [exact Hnd|]. exact (proj1 (Hbuild "segs")).
Defined.

(** The aggregate document of the example run lives in bucket [docs]; its
    key is deleted from bucket [segs]. *)
Lemma statistics_document_buckets_witness :
  Py.count ":" "docs" = 0 /\ Py.count ":" "agg.json" = 0 /\
  stats example_cmdargs = Some "docs:agg.json" /\
  noremove example_cmdargs = false /\
  exists keys r rest,
    skipn 27 example_trace = Ev_delete_objects "segs" keys r :: rest /\
    In "agg.json" keys.
Proof.
  split; [reflexivity|]. split; [reflexivity|]. split; [reflexivity|].
  split; [reflexivity|].
  pose proof (statistics_document_buckets example_world example_cmdargs
                "docs" "agg.json" eq_refl eq_refl) as H.
  cbv zeta in H. destruct H as (_ & _ & _ & _ & _ & H).
  apply (H (or_introl eq_refl) eq_refl (firstn 26 example_trace)
           "/tmp/tmpab12/segs.kea" "segs" "out/segs.kea"
           (skipn 27 example_trace)).
  vm_compute. reflexivity.
Defined.

(** A locator without a colon stops the run before any statistics. *)
Lemma locator_parsing_witness :
  Py.count ":" "agg.json" <> 1 /\
  stats example_unparsed_cmdargs = Some "agg.json" /\
  (exists e, outcome_of (main example_world example_unparsed_cmdargs)
             = Raise e) /\
  Forall (before_statistics example_unparsed_cmdargs)
         (trace_of (main example_world example_unparsed_cmdargs)) /\
  Py.count ":" "docs:agg.json" = 1 /\
  exists b k, "docs:agg.json" = (b ++ ":" ++ k)%string /\
              unpack2 (Py.split ":" "docs:agg.json") = Ok (b, k).
Proof.
  assert (Hc : Py.count ":" "agg.json" <> 1) by discriminate.
  split; [exact Hc|]. split; [reflexivity|].
  destruct (locator_parsing example_world example_unparsed_cmdargs "agg.json")
    as [_ Hbad].
  destruct (Hbad Hc) as (_ & Hstats & _).
  destruct (Hstats eq_refl) as (_ & Hfail & Htrace).
  split; [exact Hfail|]. split; [exact Htrace|]. split; [reflexivity|].
  destruct (locator_parsing example_world example_cmdargs "docs:agg.json")
    as [Hgood _].
  destruct (Hgood eq_refl) as (b & k & Hb & Hk & _).
  now exists b, k.
Defined.
